(** * zuniq: adjacent-line deduplication (TypeScript), embedded in Rocq

    The development follows the current entry point of the package (the
    variant with [ignoreCase]); the older [src/index.ts] is its
    case-sensitive ancestor and is referred to only for comparison.

    Strings are JavaScript strings restricted to the Latin-1 range: a
    character ([ascii]) stands for the UTF-16 code unit of the same
    number.  Promises are modelled by their settled value: a rejected
    promise is an [error], a warning printed with [console.warn] is an
    entry of a log. *)

From Stdlib Require Import String Ascii List Bool Arith NArith Lia.
From Stdlib Require Import DecimalString.
Import ListNotations.
Open Scope string_scope.
Open Scope bool_scope.

(** ** JavaScript string primitives used by the program *)

Module Js.

Definition LF : ascii := "010"%char.
Definition CR : ascii := "013"%char.

Definition isLF (c : ascii) : bool := Ascii.eqb c LF.
Definition isCR (c : ascii) : bool := Ascii.eqb c CR.

(** White space as [String.prototype.trimEnd] sees it, in the Latin-1
    range: TAB, LF, VT, FF, CR, SPACE and NO-BREAK SPACE. *)
Definition isWhiteSpace (c : ascii) : bool :=
  let n := nat_of_ascii c in
  (((9 <=? n) && (n <=? 13)) || (n =? 32) || (n =? 160))%nat.

(** [toLowerCase] on one Latin-1 code unit: A-Z and the accented capitals
    U+00C0-U+00DE (without the multiplication sign U+00D7) move up by 32. *)
Definition lowerChar (c : ascii) : ascii :=
  let n := nat_of_ascii c in
  if (((65 <=? n) && (n <=? 90))
      || ((192 <=? n) && (n <=? 222) && negb (n =? 215)))%nat
  then ascii_of_nat (n + 32) else c.

Fixpoint toLowerCase (s : string) : string :=
  match s with
  | EmptyString => EmptyString
  | String c t => String (lowerChar c) (toLowerCase t)
  end.

(** [s.split("\n")]: never the empty array. *)
Fixpoint split (s : string) : list string :=
  match s with
  | EmptyString => [EmptyString]
  | String c t =>
      if isLF c then EmptyString :: split t
      else match split t with
           | h :: r => String c h :: r
           | [] => [String c EmptyString]
           end
  end.

(** [a.join("\n")] *)
Fixpoint join (l : list string) : string :=
  match l with
  | [] => EmptyString
  | [x] => x
  | x :: t => x ++ String LF (join t)
  end.

(** [line.replace(/\r/g, "")] *)
Fixpoint removeCR (s : string) : string :=
  match s with
  | EmptyString => EmptyString
  | String c t => if isCR c then removeCR t else String c (removeCR t)
  end.

(** [content.replace(/\n+/g, "\n")]: every maximal run of line feeds
    becomes one line feed. *)
Fixpoint collapseLF (s : string) : string :=
  match s with
  | EmptyString => EmptyString
  | String c t =>
      if isLF c then
        match t with
        | String d _ => if isLF d then collapseLF t else String c (collapseLF t)
        | EmptyString => String c EmptyString
        end
      else String c (collapseLF t)
  end.

Fixpoint allLF (s : string) : bool :=
  match s with
  | EmptyString => true
  | String c t => isLF c && allLF t
  end.

(** The regular expression [/(\n+|\r\n+)$/] anchored at the start of [s]:
    since [$] is the end of the input, a match starting here is the whole
    of [s], which is either one or more line feeds, or a carriage return
    followed by one or more line feeds. *)
Definition trailingNewlinesHere (s : string) : bool :=
  match s with
  | EmptyString => false
  | String c t =>
      (isLF c && allLF t)
      || (isCR c && match t with
                    | EmptyString => false
                    | String _ _ => allLF t
                    end)
  end.

(** [content.match(trailingNewlinesRegex)]: the leftmost position at which
    the expression matches; [None] for JavaScript's [null]. *)
Fixpoint matchTrailingNewlines (s : string) : option string :=
  if trailingNewlinesHere s then Some s
  else match s with
       | EmptyString => None
       | String _ t => matchTrailingNewlines t
       end.

(** [content.replace(trailingNewlinesRegex, "\n")]: the leftmost match,
    if any, is replaced by one line feed. *)
Fixpoint replaceTrailingNewlines (s : string) : string :=
  if trailingNewlinesHere s then String LF EmptyString
  else match s with
       | EmptyString => EmptyString
       | String c t => String c (replaceTrailingNewlines t)
       end.

(** [content.trimEnd()] *)
Fixpoint trimEnd (s : string) : string :=
  match s with
  | EmptyString => EmptyString
  | String c t =>
      match trimEnd t with
      | EmptyString => if isWhiteSpace c then EmptyString else String c EmptyString
      | String d r => String c (String d r)
      end
  end.

(** Truthiness of a possibly undefined string: [undefined] and [""] are
    falsy. *)
Definition truthy (o : option string) : bool :=
  match o with
  | Some s => negb (s =? "")
  | None => false
  end.

(** A decimal number as a template literal prints it. *)
Definition showNat (n : nat) : string := NilZero.string_of_uint (Nat.to_uint n).

(** [Array.from(new Set(l))]: the first occurrence of every element, in
    order. *)
Fixpoint uniqueValues (l : list string) : list string :=
  match l with
  | [] => []
  | x :: t => x :: filter (fun y => negb (y =? x)) (uniqueValues t)
  end.

(** [a.filter((x, i) => f(x, i))], the index counted from [i]. *)
Fixpoint filteri {A : Type} (f : nat -> A -> bool) (i : nat) (l : list A) : list A :=
  match l with
  | [] => []
  | x :: t => if f i x then x :: filteri f (S i) t else filteri f (S i) t
  end.

End Js.

Import Js.

(** The text made of the given lines, each followed by a line feed. *)
Definition text (l : list string) : string := join (l ++ [""]).

Definition cr : string := String CR "".
Definition lf : string := String LF "".

(** ** Plain objects used as count tables

    [LineCount] is declared in [./types] as a string-indexed table of
    numbers; the tables are object literals [{}], so a read of a name that
    is not an own property goes on to [Object.prototype]. *)

Module Obj.

(** The values a table cell or a table read can hold here. *)
Inductive jsval : Type :=
| JNum (n : nat)
| JNaN
| JUndef
| JBuiltin (name : string) (ones : nat)
    (** the function inherited under [name] ([ones = 0]), or its source
        text followed by [ones] characters [1] *)
| JObj (ones : nat)
    (** [Object.prototype] itself, read through [__proto__] ([ones = 0]),
        or the text [[object Object]] followed by [ones] characters [1] *).

(** Own properties, in order of creation. *)
Definition LineCount : Type := list (string * jsval).

(** The function-valued properties of [Object.prototype] (Node.js). *)
Definition builtinNames : list string :=
  [ "constructor"; "__defineGetter__"; "__defineSetter__"; "hasOwnProperty";
    "__lookupGetter__"; "__lookupSetter__"; "isPrototypeOf";
    "propertyIsEnumerable"; "toString"; "valueOf"; "toLocaleString" ].

Definition isBuiltinName (k : string) : bool :=
  existsb (String.eqb k) builtinNames.

(** A name that a fresh [{}] already answers to. *)
Definition inherited (k : string) : bool :=
  (k =? "__proto__") || isBuiltinName k.

Fixpoint ownGet (o : LineCount) (k : string) : option jsval :=
  match o with
  | [] => None
  | (k', v) :: t => if k' =? k then Some v else ownGet t k
  end.

(** [o[k]] *)
Definition get (o : LineCount) (k : string) : jsval :=
  match ownGet o k with
  | Some v => v
  | None =>
      if k =? "__proto__" then JObj 0
      else if isBuiltinName k then JBuiltin k 0
      else JUndef
  end.

Fixpoint ownSet (o : LineCount) (k : string) (v : jsval) : LineCount :=
  match o with
  | [] => [(k, v)]
  | (k', v') :: t => if k' =? k then (k, v) :: t else (k', v') :: ownSet t k v
  end.

(** [o[k] = v] for a primitive [v]: the inherited [__proto__] setter
    ignores primitives, every other name becomes or stays an own
    property. *)
Definition set (o : LineCount) (k : string) (v : jsval) : LineCount :=
  if k =? "__proto__" then o else ownSet o k v.

Definition truthy (v : jsval) : bool :=
  match v with
  | JNum 0 => false
  | JNum (S _) => true
  | JNaN => false
  | JUndef => false
  | JBuiltin _ _ => true
  | JObj _ => true
  end.

(** [v || 0] *)
Definition orZero (v : jsval) : jsval := if truthy v then v else JNum 0.

(** [v + 1]: addition on numbers, concatenation of [1] onto anything that
    converts to a string. *)
Definition plusOne (v : jsval) : jsval :=
  match v with
  | JNum n => JNum (n + 1)
  | JNaN => JNaN
  | JUndef => JNaN
  | JBuiltin f k => JBuiltin f (S k)
  | JObj k => JObj (S k)
  end.

(** [v > 1]: only a number can exceed one, the texts above convert to
    [NaN]. *)
Definition gt1 (v : jsval) : bool :=
  match v with
  | JNum n => (1 <? n)%nat
  | _ => false
  end.

Fixpoint ones (k : nat) : string :=
  match k with
  | O => ""
  | S k' => String "1" (ones k')
  end.

(** [`${v}`] *)
Definition show (v : jsval) : string :=
  match v with
  | JNum n => showNat n
  | JNaN => "NaN"
  | JUndef => "undefined"
  | JBuiltin f k =>
      "function " ++ (if f =? "constructor" then "Object" else f)
        ++ "() { [native code] }" ++ ones k
  | JObj k => "[object Object]" ++ ones k
  end.

Fixpoint digitsValue (s : string) (acc : N) : option N :=
  match s with
  | EmptyString => Some acc
  | String c t =>
      let n := N_of_ascii c in
      if ((48 <=? n) && (n <=? 57))%N
      then digitsValue t (acc * 10 + (n - 48))%N
      else None
  end.

(** The array index a property name denotes, if any: a canonical decimal
    numeral below 2^32 - 1. *)
Definition arrayIndex (k : string) : option N :=
  match k with
  | EmptyString => None
  | String c t =>
      if Ascii.eqb c "0"%char then
        (if t =? "" then Some 0%N else None)
      else match digitsValue k 0 with
           | Some n => if (n <? 4294967295)%N then Some n else None
           | None => None
           end
  end.

Fixpoint insertIndex (n : N) (k : string) (l : list (N * string)) : list (N * string) :=
  match l with
  | [] => [(n, k)]
  | (m, k') :: t =>
      if (n <=? m)%N then (n, k) :: l else (m, k') :: insertIndex n k t
  end.

Fixpoint indexKeys (o : LineCount) : list (N * string) :=
  match o with
  | [] => []
  | (k, _) :: t =>
      match arrayIndex k with
      | Some n => insertIndex n k (indexKeys t)
      | None => indexKeys t
      end
  end.

Fixpoint nameKeys (o : LineCount) : list string :=
  match o with
  | [] => []
  | (k, _) :: t =>
      match arrayIndex k with
      | Some _ => nameKeys t
      | None => k :: nameKeys t
      end
  end.

(** [Object.keys(o)]: array indices in ascending order, then the other
    names in order of creation. *)
Definition keys (o : LineCount) : list string :=
  map snd (indexKeys o) ++ nameKeys o.

End Obj.

Definition LineCount : Type := Obj.LineCount.

(** ** The file system and the promise monad *)

(** The files that exist, with their text, and the paths at which a new
    file can be created.  The empty path names no file.  Every path of
    [files] is a regular file that can be read and written: what the
    runtime does with a path that [fs.access] accepts and that cannot be
    read or written (a directory, a file without the permission) is
    outside the model. *)
Record FileSystem : Type := {
  files : list (string * string);
  creatable : string -> bool
}.

Fixpoint lookupFile (l : list (string * string)) (p : string) : option string :=
  match l with
  | [] => None
  | (q, c) :: t => if q =? p then Some c else lookupFile t p
  end.

Fixpoint storeFile (l : list (string * string)) (p c : string) : list (string * string) :=
  match l with
  | [] => [(p, c)]
  | (q, d) :: t => if q =? p then (p, c) :: t else (q, d) :: storeFile t p c
  end.

Definition fileAt (fs : FileSystem) (p : option string) : option string :=
  match p with
  | Some q => if q =? "" then None else lookupFile (files fs) q
  | None => None
  end.

Inductive error : Type :=
| InvalidPath (path : option string)
    (** [Error: Invalid file path '...'] *)
| ConflictingInputs
    (** [Error: Provide either a file path or content, not both] *)
| NodeError
    (** a rejection of the runtime's own, passed on unchanged *).

Inductive settled (A : Type) : Type :=
| Resolved (a : A)
| Rejected (e : error).
Arguments Resolved {A} a.
Arguments Rejected {A} e.

(** An asynchronous computation: from the file system to the warnings
    printed, the settled value and the file system left behind. *)
Definition M (A : Type) : Type :=
  FileSystem -> list string * settled A * FileSystem.

Definition ret {A : Type} (a : A) : M A := fun fs => ([], Resolved a, fs).

Definition bind {A B : Type} (m : M A) (f : A -> M B) : M B :=
  fun fs =>
    match m fs with
    | (w, Resolved a, fs') =>
        match f a fs' with
        | (w', r, fs'') => ((w ++ w')%list, r, fs'')
        end
    | (w, Rejected e, fs') => (w, Rejected e, fs')
    end.

Notation "x <- m ;; k" := (bind m (fun x => k))
  (at level 61, m at next level, right associativity).
Notation "m ;;; k" := (bind m (fun _ => k))
  (at level 61, right associativity).

Definition throw {A : Type} (e : error) : M A := fun fs => ([], Rejected e, fs).

(** [console.warn(msg)] *)
Definition warn (msg : string) : M unit := fun fs => ([msg], Resolved tt, fs).

(** [m.then(() => true).catch(() => false)] *)
Definition succeeds {A : Type} (m : M A) : M bool :=
  fun fs =>
    match m fs with
    | (w, Resolved _, fs') => (w, Resolved true, fs')
    | (w, Rejected _, fs') => (w, Resolved false, fs')
    end.

(** [fs.access(path)] *)
Definition access (p : option string) : M unit :=
  fun fs =>
    match fileAt fs p with
    | Some _ => ([], Resolved tt, fs)
    | None => ([], Rejected NodeError, fs)
    end.

(** [fs.readFile(path, "utf-8")], for the regular files of the model: it
    rejects only where nothing exists. *)
Definition readFile (p : option string) : M string :=
  fun fs =>
    match fileAt fs p with
    | Some c => ([], Resolved c, fs)
    | None => ([], Rejected NodeError, fs)
    end.

(** [fs.writeFile(path, text)], for the regular files of the model:
    overwrites an existing file, creates one where that is possible, and
    rejects only where nothing exists and nothing can be created. *)
Definition writeFile (p : string) (c : string) : M unit :=
  fun fs =>
    match fileAt fs (Some p) with
    | Some _ =>
        ([], Resolved tt, {| files := storeFile (files fs) p c; creatable := creatable fs |})
    | None =>
        if negb (p =? "") && creatable fs p
        then ([], Resolved tt, {| files := storeFile (files fs) p c; creatable := creatable fs |})
        else ([], Rejected NodeError, fs)
    end.

(** [`${path}`] for a path that may be [undefined]. *)
Definition showPath (p : option string) : string :=
  match p with
  | Some q => q
  | None => "undefined"
  end.

(** The string behind an option that was tested truthy. *)
Definition str (o : option string) : string :=
  match o with
  | Some s => s
  | None => ""
  end.

(** ** The program *)

(** Modelled from the spec: [./types] is not among the sources; the
    options are the fields the specification lists (section 3), an absent
    flag being [false] and an absent string [None]. *)
Record zUniqOptions : Type := {
  filePath : option string;
  content : option string;
  outputPath : option string;
  count : bool;
  repeated : bool;
  unique : bool;
  ignoreCase : bool
}.

Record zUniqBaseOutput : Type := { out : string }.

Definition assertFileExists (filePath : option string) : M unit :=
  fun fs =>
    match access filePath fs with
    | (w, Resolved _, fs') => (w, Resolved tt, fs')
    | (w, Rejected _, fs') => (w, Rejected (InvalidPath filePath), fs')
    end.

Definition getRawContent (filePath content : option string) : M string :=
  fileExists <- succeeds (assertFileExists filePath) ;;
  if fileExists && negb (truthy content) then
    readFile filePath
  else if negb fileExists && truthy content then
    warn ("Warning: Invalid file path '" ++ showPath filePath
            ++ "'. Using provided content.") ;;;
    ret (str content)
  else if fileExists && truthy content then
    throw ConflictingInputs
  else
    ret "".

Definition findLineKey (caseInsensitiveLinesCount : LineCount) (line : string) : string :=
  fold_left
    (fun lineKey key =>
       if toLowerCase key =? toLowerCase line then key else lineKey)
    (Obj.keys caseInsensitiveLinesCount) "".

Definition buildCaseInsensitiveLinesCount (rawContent : string) : LineCount :=
  let lines := split rawContent in
  fold_left
    (fun (caseInsensitiveLinesCount : LineCount) line =>
       let lowerCaseLine := toLowerCase line in
       let lineKey := findLineKey caseInsensitiveLinesCount lowerCaseLine in
       if truthy (Some lineKey) then
         Obj.set caseInsensitiveLinesCount lineKey
           (Obj.plusOne (Obj.get caseInsensitiveLinesCount lineKey))
       else
         Obj.set caseInsensitiveLinesCount line (Obj.JNum 1))
    lines [].

Definition buildCaseSensitiveLineCount (rawContent : string) : LineCount :=
  let lines := split rawContent in
  fold_left
    (fun (linesCount : LineCount) line =>
       Obj.set linesCount line
         (Obj.plusOne (Obj.orZero (Obj.get linesCount line))))
    lines [].

(** The flag is named [caseSensitive] and selects the case-insensitive
    table, as in the source. *)
Definition buildLinesCount (rawContent : string) (caseSensitive : bool) : LineCount :=
  if caseSensitive then buildCaseInsensitiveLinesCount rawContent
  else buildCaseSensitiveLineCount rawContent.

Definition getOutputWithCount (rawContent : string) (linesCount : LineCount)
    (countEnabled : bool) : string :=
  let outputLines := split rawContent in
  let outputWithCount :=
    map (fun line =>
           if countEnabled then
             let key := findLineKey linesCount line in
             let count := Obj.get linesCount key in
             Obj.show count ++ " " ++ line
           else
             let count := Obj.get linesCount line in
             Obj.show count ++ " " ++ line)
        outputLines in
  join outputWithCount.

Definition processRepeatedLines (filePath content : option string)
    (count ignoreCase : bool) : M zUniqBaseOutput :=
  rawContent <- getRawContent filePath content ;;
  let lines := split rawContent in
  if ignoreCase then
    let caseInsensitiveLinesCount := buildLinesCount rawContent ignoreCase in
    let repeatedLines :=
      filter (fun line => Obj.gt1 (Obj.get caseInsensitiveLinesCount line))
             (Obj.keys caseInsensitiveLinesCount) in
    let out := join (uniqueValues repeatedLines) in
    if count then
      ret {| out := getOutputWithCount out caseInsensitiveLinesCount count |}
    else ret {| out := out |}
  else
    let linesCount := buildLinesCount rawContent false in
    let repeatedLines :=
      filter (fun line => Obj.gt1 (Obj.get linesCount line)) lines in
    let out := join (uniqueValues repeatedLines) in
    if count then
      ret {| out := getOutputWithCount out linesCount count |}
    else ret {| out := out |}.

Definition writeToOutputFile (outputFilePath content : string) : M unit :=
  outputFileExists <- succeeds (assertFileExists (Some outputFilePath)) ;;
  (if negb outputFileExists then
     fileCreated <- succeeds (writeFile outputFilePath "") ;;
     if negb fileCreated then throw (InvalidPath (Some outputFilePath))
     else ret tt
   else ret tt) ;;;
  writeFile outputFilePath content.

Definition getTrailingNewlinesCount (content : string) : nat :=
  match matchTrailingNewlines content with
  | Some m => String.length m
  | None => 0
  end.

Definition updateTrailingNewlines (content : string) (trailingNewlinesCount : nat) : string :=
  let content := collapseLF content in
  if (1 <=? trailingNewlinesCount)%nat then replaceTrailingNewlines content
  else trimEnd content.

(** [lines[index - 1]] is read only when [index] is not 0, so it is always
    an element; the [None] case is the [undefined] an out-of-range read
    would give. *)
Definition compareLineWithPreviousLine (line : string) (index : nat)
    (lines : list string) (ignoreCase : bool) : bool :=
  if ignoreCase then
    (index =? 0)%nat
    || match nth_error lines (index - 1) with
       | Some previous => negb (toLowerCase previous =? toLowerCase line)
       | None => true
       end
  else
    (index =? 0)%nat
    || match nth_error lines (index - 1) with
       | Some previous => negb (previous =? line)
       | None => true
       end.

(** The callback of the filter in [processContent]. *)
Definition keepLine (lines : list string) (ignoreCase : bool)
    (index : nat) (line : string) : bool :=
  let line := removeCR line in
  if line =? "" then true
  else compareLineWithPreviousLine line index lines ignoreCase.

Definition uniqueLines (content : string) (ignoreCase : bool) : list string :=
  let lines := split content in
  filteri (keepLine lines ignoreCase) 0 lines.

Definition processContent (content : string) (ignoreCase : bool) : string :=
  let outWithDuplicateNewslines := join (uniqueLines content ignoreCase) in
  let trailingNewlinesCount := getTrailingNewlinesCount content in
  updateTrailingNewlines outWithDuplicateNewslines trailingNewlinesCount.

Definition processFilePathAndContent (filePath content : option string)
    (ignoreCase : bool) : M zUniqBaseOutput :=
  fileExists <- succeeds (assertFileExists filePath) ;;
  if fileExists then throw ConflictingInputs
  else
    warn ("Warning: Invalid file path '" ++ showPath filePath
            ++ "'. Using provided content.") ;;;
    ret {| out := processContent (str content) ignoreCase |}.

Definition zuniq (opts : zUniqOptions) : M zUniqBaseOutput :=
  if repeated opts && unique opts then
    warn "Warning: Provide either 'repeated' or 'unique', not both." ;;;
    ret {| out := "" |}
  else if repeated opts then
    processRepeatedLines (filePath opts) (content opts) (count opts) (ignoreCase opts)
  else
    result <-
      (if truthy (filePath opts) && truthy (content opts) then
         processFilePathAndContent (filePath opts) (content opts) (ignoreCase opts)
       else if truthy (content opts) then
         ret {| out := processContent (str (content opts)) (ignoreCase opts) |}
       else
         assertFileExists (filePath opts) ;;;
         fileContent <- readFile (filePath opts) ;;
         ret {| out := processContent fileContent (ignoreCase opts) |}) ;;
    result <-
      (if count opts then
         rawContent <- getRawContent (filePath opts) (content opts) ;;
         let linesCount := buildLinesCount rawContent false in
         ret {| out := getOutputWithCount (out result) linesCount (count opts) |}
       else ret result) ;;
    if negb (truthy (outputPath opts)) then ret result
    else
      writeToOutputFile (str (outputPath opts)) (out result) ;;;
      ret result.

(** ** The older entry point, [src/index.ts]

    It has no [ignoreCase]; [getRawContent], [writeToOutputFile],
    [assertFileExists], [getTrailingNewlinesCount] and
    [updateTrailingNewlines] read as in the current entry point and are
    shared with it. *)

Module Legacy.

(** The argument of [zuniq], as its type is written in the signature. *)
Record options : Type := {
  filePath : option string;
  content : option string;
  outputFilePath : option string;
  count : bool;
  repeated : bool;
  unique : bool
}.

Definition buildLinesCount (rawContent : string) : LineCount :=
  let lines := split rawContent in
  fold_left
    (fun (linesCount : LineCount) line =>
       Obj.set linesCount line
         (Obj.plusOne (Obj.orZero (Obj.get linesCount line))))
    lines [].

Definition getOutputWithCount (rawContent : string) (linesCount : LineCount) : string :=
  let outputLines := split rawContent in
  let outputWithCount :=
    map (fun line =>
           let count := Obj.get linesCount line in
           Obj.show count ++ " " ++ line)
        outputLines in
  join outputWithCount.

Definition processRepeatedLines (filePath content : option string) (count : bool)
    : M zUniqBaseOutput :=
  rawContent <- getRawContent filePath content ;;
  let lines := split rawContent in
  let linesCount := buildLinesCount rawContent in
  let repeatedLines :=
    filter (fun line => Obj.gt1 (Obj.get linesCount line)) lines in
  let out := join (uniqueValues repeatedLines) in
  if count then ret {| out := getOutputWithCount out linesCount |}
  else ret {| out := out |}.

Definition processContent (content : string) : string :=
  let lines := split content in
  let uniqueLines :=
    filteri
      (fun index line =>
         let line := removeCR line in
         if line =? "" then true
         else (index =? 0)%nat
              || match nth_error lines (index - 1) with
                 | Some previous => negb (previous =? line)
                 | None => true
                 end)
      0 lines in
  let outWithDuplicateNewslines := join uniqueLines in
  let trailingNewlinesCount := getTrailingNewlinesCount content in
  updateTrailingNewlines outWithDuplicateNewslines trailingNewlinesCount.

Definition processFilePathAndContent (filePath content : option string)
    : M zUniqBaseOutput :=
  fileExists <- succeeds (assertFileExists filePath) ;;
  if fileExists then throw ConflictingInputs
  else
    warn ("Warning: Invalid file path '" ++ showPath filePath
            ++ "'. Using provided content.") ;;;
    ret {| out := processContent (str content) |}.

Definition zuniq (opts : options) : M zUniqBaseOutput :=
  if repeated opts && unique opts then
    warn "Warning: Provide either 'repeated' or 'unique', not both." ;;;
    ret {| out := "" |}
  else if repeated opts then
    processRepeatedLines (filePath opts) (content opts) (count opts)
  else
    result <-
      (if truthy (filePath opts) && truthy (content opts) then
         processFilePathAndContent (filePath opts) (content opts)
       else if truthy (content opts) then
         ret {| out := processContent (str (content opts)) |}
       else
         assertFileExists (filePath opts) ;;;
         fileContent <- readFile (filePath opts) ;;
         ret {| out := processContent fileContent |}) ;;
    result <-
      (if count opts then
         rawContent <- getRawContent (filePath opts) (content opts) ;;
         let linesCount := buildLinesCount rawContent in
         ret {| out := getOutputWithCount (out result) linesCount |}
       else ret result) ;;
    if negb (truthy (outputFilePath opts)) then ret result
    else
      writeToOutputFile (str (outputFilePath opts)) (out result) ;;;
      ret result.

End Legacy.

(** ** Vocabulary of the properties *)

(** A line the filter of [processContent] treats as empty. *)
Definition isBlank (line : string) : bool := removeCR line =? "".

Definition blankLines (s : string) : list string := filter isBlank (split s).

(** Every blank line of the input is still a line of the output. *)
Definition blankLinesRetained (ignoreCase : bool) (s : string) : Prop :=
  List.length (blankLines s) <= List.length (blankLines (processContent s ignoreCase)).

Fixpoint hasDoubleLF (s : string) : bool :=
  match s with
  | EmptyString => false
  | String c t =>
      (isLF c && match t with
                 | String d _ => isLF d
                 | EmptyString => false
                 end)
      || hasDoubleLF t
  end.

Fixpoint hasCR (s : string) : bool :=
  match s with
  | EmptyString => false
  | String c t => isCR c || hasCR t
  end.

Fixpoint hasLF (s : string) : bool :=
  match s with
  | EmptyString => false
  | String c t => isLF c || hasLF t
  end.

Fixpoint endsWithLF (s : string) : bool :=
  match s with
  | EmptyString => false
  | String c EmptyString => isLF c
  | String _ t => endsWithLF t
  end.

(** How often [line] occurs among [lines]. *)
Definition occurrences (line : string) (lines : list string) : nat :=
  count_occ string_dec lines line.

(** The comparison of [compareLineWithPreviousLine]. *)
Definition sameLine (ignoreCase : bool) (a b : string) : bool :=
  if ignoreCase then toLowerCase a =? toLowerCase b else a =? b.

(** The filter of [processContent] told by recursion on the lines, the
    line before the current one carried along. *)
Definition keeps (ignoreCase : bool) (previous : option string) (line : string) : bool :=
  isBlank line
  || match previous with
     | None => true
     | Some p => negb (sameLine ignoreCase p (removeCR line))
     end.

Fixpoint keepFrom (ignoreCase : bool) (previous : option string)
    (lines : list string) : list string :=
  match lines with
  | [] => []
  | x :: t =>
      if keeps ignoreCase previous x then x :: keepFrom ignoreCase (Some x) t
      else keepFrom ignoreCase (Some x) t
  end.

(** The lines that occur more than once, each once, in order of first
    occurrence. *)
Definition repeatedOnce (lines : list string) : list string :=
  uniqueValues (filter (fun l => (1 <? occurrences l lines)%nat) lines).

Definition defaults : zUniqOptions :=
  {| filePath := None; content := None; outputPath := None;
     count := false; repeated := false; unique := false; ignoreCase := false |}.

Definition withContent (o : zUniqOptions) (c : option string) : zUniqOptions :=
  {| filePath := filePath o; content := c; outputPath := outputPath o;
     count := count o; repeated := repeated o; unique := unique o;
     ignoreCase := ignoreCase o |}.

(** A file system with one file. *)
Definition oneFile (path contents : string) : FileSystem :=
  {| files := [(path, contents)]; creatable := fun _ => true |}.

Definition settledValue {A : Type} (r : list string * settled A * FileSystem) : settled A :=
  snd (fst r).

Definition warnings {A : Type} (r : list string * settled A * FileSystem) : list string :=
  fst (fst r).

(** Whether [writeToOutputFile] can write at [p]: the path names a file,
    or a file can be created there. *)
Definition writable (fs : FileSystem) (p : string) : bool :=
  negb (p =? "")
  && (match lookupFile (files fs) p with Some _ => true | None => false end
      || creatable fs p).

(** The file system once [c] has been written at [p]. *)
Definition written (fs : FileSystem) (p c : string) : FileSystem :=
  {| files := storeFile (files fs) p c; creatable := creatable fs |}.

(** ** Shapes of texts and of line lists *)

(** Every line but the last is not empty. *)
Fixpoint nonEmptyButLast (l : list string) : bool :=
  match l with
  | [] => true
  | y :: t =>
      match t with
      | [] => true
      | _ :: _ => negb (y =? "") && nonEmptyButLast t
      end
  end.

(** No line strictly between the first and the last is empty. *)
Definition noInnerEmptyLine (l : list string) : bool :=
  match l with
  | [] => true
  | _ :: t => nonEmptyButLast t
  end.

(** The last line exists and is empty. *)
Fixpoint lastEmpty (l : list string) : bool :=
  match l with
  | [] => false
  | y :: t =>
      match t with
      | [] => y =? ""
      | _ :: _ => lastEmpty t
      end
  end.

(** The last character is white space. *)
Fixpoint lastIsWhiteSpace (s : string) : bool :=
  match s with
  | EmptyString => false
  | String c t =>
      match t with
      | EmptyString => isWhiteSpace c
      | String _ _ => lastIsWhiteSpace t
      end
  end.



(** Two remembered previous lines that the comparison cannot tell
    apart. *)
Definition samePrevious (ignoreCase : bool) (p q : option string) : bool :=
  match p, q with
  | None, None => true
  | Some a, Some b => sameLine ignoreCase a b
  | _, _ => false
  end.

(** No line that is not blank follows a line it is equal to under the
    comparison. *)
Fixpoint noAdjacentDuplicates (ignoreCase : bool) (l : list string) : bool :=
  match l with
  | [] => true
  | a :: t =>
      match t with
      | [] => true
      | b :: _ =>
          (isBlank b || negb (sameLine ignoreCase a b))
          && noAdjacentDuplicates ignoreCase t
      end
  end.

(** [k] is [l] with some of its elements left out. *)
Inductive Subsequence : list string -> list string -> Prop :=
| Subsequence_nil : Subsequence [] []
| Subsequence_take (x : string) (k l : list string) :
    Subsequence k l -> Subsequence (x :: k) (x :: l)
| Subsequence_skip (x : string) (k l : list string) :
    Subsequence k l -> Subsequence k (x :: l).

(** The first element on which the comparison of a line with [p] before
    it would be made. *)
Definition keptAfter (ignoreCase : bool) (p : option string) (l : list string) : bool :=
  match l with
  | [] => true
  | k :: _ => keeps ignoreCase p k
  end.

Fixpoint repeatLF (n : nat) : string :=
  match n with
  | O => ""
  | S k => String LF (repeatLF k)
  end.

Fixpoint endsWithCR (s : string) : bool :=
  match s with
  | EmptyString => false
  | String c t =>
      match t with
      | EmptyString => isCR c
      | String _ _ => endsWithCR t
      end
  end.

(** A computation that leaves the file system as it found it. *)
Definition readOnly {A : Type} (m : M A) : Prop :=
  forall fs : FileSystem, snd (m fs) = fs.

(** The warning printed when the content is used in place of a file. *)
Definition contentUsedWarning (p : option string) : string :=
  "Warning: Invalid file path '" ++ showPath p ++ "'. Using provided content.".

(** The own cell of a line counted [n] times: none before the first
    time. *)
Definition countCell (n : nat) : option Obj.jsval :=
  match n with
  | O => None
  | S _ => Some (Obj.JNum n)
  end.

(** A call in the repeated mode alone. *)
Definition repeatedOnly (p c : option string) : zUniqOptions :=
  {| filePath := p; content := c; outputPath := None; count := false;
     repeated := true; unique := false; ignoreCase := false |}.

(** How often a line equal to [line] up to letter case occurs among
    [lines], and the first such line. *)
Definition occurrencesUpToCase (line : string) (lines : list string) : nat :=
  List.length (filter (fun l => sameLine true l line) lines).

Definition firstUpToCase (line : string) (lines : list string) : option string :=
  find (fun l => sameLine true l line) lines.

(** The table [t] holds the lines equal to [line] up to letter case under
    the one key [first], counted [n] times; under no key if there were
    none. *)
Definition tracks (line : string) (t : LineCount) (first : option string) (n : nat) : Prop :=
  match first with
  | None =>
      n = 0 /\ forall k, In k (map fst t) -> sameLine true k line = false
  | Some k0 =>
      0 < n /\ sameLine true k0 line = true
      /\ Obj.ownGet t k0 = Some (Obj.JNum n)
      /\ forall k, In k (map fst t) -> sameLine true k line = true -> k = k0
  end.

(** The options of the current entry point that say what the options of
    the older one say: the output path, which the older entry point reads
    from [outputFilePath], is passed as [outputPath], and [ignoreCase] is
    not set. *)
Definition ofLegacy (o : Legacy.options) : zUniqOptions :=
  {| filePath := Legacy.filePath o; content := Legacy.content o;
     outputPath := Legacy.outputFilePath o; count := Legacy.count o;
     repeated := Legacy.repeated o; unique := Legacy.unique o;
     ignoreCase := false |}.

(** The lines without the empty ones among them, the last line left as
    it is. *)
Fixpoint dropEmptyButLast (l : list string) : list string :=
  match l with
  | [] => []
  | y :: t =>
      match t with
      | [] => [y]
      | _ :: _ => if y =? "" then dropEmptyButLast t else y :: dropEmptyButLast t
      end
  end.

(** The lines without the lines of no character that lie strictly
    between the first line and the last; a line made of carriage returns
    is not such a line. *)
Definition dropInnerEmpty (l : list string) : list string :=
  match l with
  | [] => []
  | x :: t => x :: dropEmptyButLast t
  end.

(** * Properties *)

(** ** The primitives on examples *)

Example split_ex : split (text ["a"; "a"; "b"]) = ["a"; "a"; "b"; ""].
Proof. reflexivity. Qed.

Example showNat_ex : showNat 0 = "0" /\ showNat 12 = "12".
Proof. split; reflexivity. Qed.

Example trimEnd_ex : trimEnd ("a " ++ lf ++ " b " ++ lf) = "a " ++ lf ++ " b".
Proof. reflexivity. Qed.

Example collapse_ex :
  collapseLF ("a" ++ lf ++ lf ++ lf ++ "b" ++ lf ++ lf) = "a" ++ lf ++ "b" ++ lf.
Proof. reflexivity. Qed.

Example replace_ex :
  replaceTrailingNewlines ("a" ++ lf ++ cr ++ lf) = "a" ++ lf ++ lf.
Proof. reflexivity. Qed.

Example keys_ex :
  Obj.keys (buildCaseSensitiveLineCount (text ["b"; "10"; "9"; "a"]))
  = ["9"; "10"; "b"; "a"; ""].
Proof. reflexivity. Qed.

(** Scenarios A, C and D of the specification. *)
Example scenario_A : processContent (text ["a"; "a"; "b"]) false = text ["a"; "b"].
Proof. reflexivity. Qed.

Example scenario_C : processContent (text ["A"; "a"; "B"]) true = text ["A"; "B"].
Proof. reflexivity. Qed.

Example scenario_D :
  processContent (text ["x"; "y"; "x"]) false = text ["x"; "y"; "x"].
Proof. reflexivity. Qed.

(** ** Mode selection *)

(** C9: whatever the other options and the file system are, a call with
    both [repeated] and [unique] set prints the one warning, resolves to
    the empty output and leaves the file system alone; it never rejects. *)
Theorem repeated_and_unique_degrade (opts : zUniqOptions) (fs : FileSystem) :
  repeated opts = true -> unique opts = true ->
  zuniq opts fs
  = (["Warning: Provide either 'repeated' or 'unique', not both."],
     Resolved {| out := "" |}, fs).
Proof.
  intros Hr Hu. unfold zuniq. rewrite Hr, Hu. reflexivity.
Qed.

Lemma repeated_and_unique_degrade_witness :
  zuniq {| filePath := Some "f.txt"; content := Some (text ["a"; "a"]);
           outputPath := Some "o.txt"; count := true; repeated := true;
           unique := true; ignoreCase := true |} (oneFile "f.txt" "x")
  = (["Warning: Provide either 'repeated' or 'unique', not both."],
     Resolved {| out := "" |}, oneFile "f.txt" "x").
Proof.
  apply repeated_and_unique_degrade; reflexivity.
Defined.

(** ** Counting in the default mode *)

(** C1: with [count] set and [ignoreCase] not, the text [a], [A], [A] is
    printed with the count 2 in front of [a], although [a] occurs once in
    the input: the count is looked up under the last key that equals the
    line up to letter case. *)
Theorem count_looks_up_case_folded_key (fs : FileSystem) :
  zuniq {| filePath := None; content := Some (text ["a"; "A"; "A"]);
           outputPath := None; count := true; repeated := false;
           unique := false; ignoreCase := false |} fs
  = (["Warning: Invalid file path 'undefined'. Using provided content."],
     Resolved {| out := join ["2 a"; "2 A"; "1 "] |}, fs)
  /\ occurrences "a" (split (text ["a"; "A"; "A"])) = 1
  /\ Obj.get (buildLinesCount (text ["a"; "A"; "A"]) false) "a" = Obj.JNum 1.
Proof. repeat split. Qed.

(** ** The keep rule and carriage returns *)

(** C4: of two equal adjacent lines that end in a carriage return both
    are kept: the current line is compared without its carriage return,
    the line before it with it. *)
Theorem crlf_duplicate_is_kept :
  uniqueLines (text ["a" ++ cr; "a" ++ cr]) false = ["a" ++ cr; "a" ++ cr; ""]
  /\ processContent (text ["a" ++ cr; "a" ++ cr]) false
     = "a" ++ cr ++ lf ++ "a" ++ lf
  /\ uniqueLines (text ["a" ++ cr; "A" ++ cr]) true = ["a" ++ cr; "A" ++ cr; ""]
  /\ sameLine false (removeCR ("a" ++ cr)) (removeCR ("a" ++ cr)) = true.
Proof. repeat split. Qed.

(** C5: the input [a], CR LF, CR LF ends with a line feed, and the output
    ends with two. *)
Theorem crlf_blank_line_leaves_two_line_feeds :
  processContent (text ["a" ++ cr; cr]) false = "a" ++ cr ++ lf ++ lf
  /\ endsWithLF (text ["a" ++ cr; cr]) = true
  /\ hasDoubleLF (processContent (text ["a" ++ cr; cr]) false) = true.
Proof. repeat split. Qed.

(** ** Input resolution *)

(** C6: with neither a path nor content, the repeated mode resolves to the
    empty output, where the default mode rejects with the invalid-path
    error. *)
Theorem repeated_mode_accepts_no_input (fs : FileSystem) :
  zuniq {| filePath := None; content := None; outputPath := None;
           count := false; repeated := true; unique := false;
           ignoreCase := false |} fs
  = ([], Resolved {| out := "" |}, fs)
  /\ zuniq defaults fs = ([], Rejected (InvalidPath None), fs).
Proof. split; reflexivity. Qed.

(** ** The repeated mode *)

(** C7: a line named like a property of [Object.prototype] is not listed
    by the repeated mode although it occurs twice: the table cell is read
    as the inherited function before it is ever written. *)
Theorem repeated_mode_misses_inherited_name (fs : FileSystem) :
  zuniq {| filePath := None; content := Some (text ["constructor"; "constructor"]);
           outputPath := None; count := false; repeated := true;
           unique := false; ignoreCase := false |} fs
  = (["Warning: Invalid file path 'undefined'. Using provided content."],
     Resolved {| out := "" |}, fs)
  /\ occurrences "constructor" (split (text ["constructor"; "constructor"])) = 2
  /\ Obj.get (buildLinesCount (text ["constructor"; "constructor"]) false) "constructor"
     = Obj.JBuiltin "constructor" 2.
Proof. repeat split. Qed.

(** ** The case-insensitive table *)

(** C8: the case-insensitive table counts the empty line once however
    often it occurs, as the key found for it is the empty string, which
    the test of the key takes for no key. *)
Theorem case_insensitive_table_resets_empty_line (fs : FileSystem) :
  buildCaseInsensitiveLinesCount (text [""; ""]) = [("", Obj.JNum 1)]
  /\ buildCaseSensitiveLineCount (text [""; ""]) = [("", Obj.JNum 3)]
  /\ zuniq {| filePath := None; content := Some (text [""; ""]);
              outputPath := None; count := true; repeated := true;
              unique := false; ignoreCase := true |} fs
     = (["Warning: Invalid file path 'undefined'. Using provided content."],
        Resolved {| out := "1 " |}, fs)
  /\ zuniq {| filePath := None; content := Some (text [""; ""]);
              outputPath := None; count := true; repeated := true;
              unique := false; ignoreCase := false |} fs
     = (["Warning: Invalid file path 'undefined'. Using provided content."],
        Resolved {| out := "3 " |}, fs).
Proof. repeat split. Qed.

(** ** The file system and the monad: equations *)

Lemma assertFileExists_eq (p : option string) (fs : FileSystem) :
  assertFileExists p fs
  = match fileAt fs p with
    | Some _ => ([], Resolved tt, fs)
    | None => ([], Rejected (InvalidPath p), fs)
    end.
Proof. unfold assertFileExists, access. destruct (fileAt fs p); reflexivity. Qed.

Lemma succeeds_assertFileExists (p : option string) (fs : FileSystem) :
  succeeds (assertFileExists p) fs
  = ([], Resolved (match fileAt fs p with Some _ => true | None => false end), fs).
Proof. unfold succeeds. rewrite assertFileExists_eq. destruct (fileAt fs p); reflexivity. Qed.

Lemma lookupFile_storeFile_same (l : list (string * string)) (p c : string) :
  lookupFile (storeFile l p c) p = Some c.
Proof.
  induction l as [|[q d] t IH]; cbn.
  - rewrite String.eqb_refl. reflexivity.
  - destruct (q =? p) eqn:E; cbn.
    + rewrite String.eqb_refl. reflexivity.
    + rewrite E. exact IH.
Qed.

Lemma lookupFile_storeFile_other (l : list (string * string)) (p q c : string) :
  p <> q -> lookupFile (storeFile l p c) q = lookupFile l q.
Proof.
  intros Hne. induction l as [|[r d] t IH]; cbn.
  - destruct (p =? q) eqn:E; [apply String.eqb_eq in E; contradiction | reflexivity].
  - destruct (r =? p) eqn:E; cbn.
    + apply String.eqb_eq in E. subst r.
      destruct (p =? q) eqn:E'; [apply String.eqb_eq in E'; contradiction | reflexivity].
    + destruct (r =? q); [reflexivity | exact IH].
Qed.

Lemma storeFile_twice (l : list (string * string)) (p c d : string) :
  storeFile (storeFile l p c) p d = storeFile l p d.
Proof.
  induction l as [|[q e] t IH]; cbn.
  - rewrite String.eqb_refl. reflexivity.
  - destruct (q =? p) eqn:E; cbn.
    + rewrite String.eqb_refl. reflexivity.
    + rewrite E, IH. reflexivity.
Qed.

Lemma writeToOutputFile_eq (p c : string) (fs : FileSystem) :
  writeToOutputFile p c fs
  = if writable fs p
    then ([], Resolved tt, written fs p c)
    else ([], Rejected (InvalidPath (Some p)), fs).
Proof.
  unfold writeToOutputFile, writable, written. unfold bind at 1 2.
  rewrite succeeds_assertFileExists. cbn [fileAt].
  destruct (p =? "") eqn:Hp; cbn [negb andb].
  - unfold bind, succeeds, writeFile. cbn [fileAt]. rewrite Hp. reflexivity.
  - destruct (lookupFile (files fs) p) eqn:Hl; cbn [negb orb].
    + unfold ret at 1. unfold writeFile. cbn [fileAt]. rewrite Hp, Hl. reflexivity.
    + unfold bind, succeeds. unfold writeFile at 1. cbn [fileAt]. rewrite Hp, Hl.
      cbn [negb andb]. destruct (creatable fs p) eqn:Hc; cbn.
      * unfold writeFile. cbn [fileAt files]. rewrite Hp, lookupFile_storeFile_same.
        rewrite storeFile_twice. reflexivity.
      * reflexivity.
Qed.

Lemma bind_resolved {A B : Type} (m : M A) (f : A -> M B) (fs fs' : FileSystem)
    (w : list string) (a : A) :
  m fs = (w, Resolved a, fs') ->
  bind m f fs = match f a fs' with (w', r, fs'') => ((w ++ w')%list, r, fs'') end.
Proof. intros H. unfold bind. rewrite H. reflexivity. Qed.

Lemma bind_rejected {A B : Type} (m : M A) (f : A -> M B) (fs fs' : FileSystem)
    (w : list string) (e : error) :
  m fs = (w, Rejected e, fs') -> bind m f fs = (w, Rejected e, fs').
Proof. intros H. unfold bind. rewrite H. reflexivity. Qed.

Lemma getRawContent_eq (p content : option string) (fs : FileSystem) :
  getRawContent p content fs
  = match fileAt fs p, truthy content with
    | Some c, false => ([], Resolved c, fs)
    | None, true =>
        (["Warning: Invalid file path '" ++ showPath p
            ++ "'. Using provided content."], Resolved (str content), fs)
    | Some _, true => ([], Rejected ConflictingInputs, fs)
    | None, false => ([], Resolved "", fs)
    end.
Proof.
  unfold getRawContent. unfold bind at 1. rewrite succeeds_assertFileExists.
  destruct (fileAt fs p) eqn:Hf, (truthy content); cbn [andb negb];
    try reflexivity.
  unfold readFile. rewrite Hf. reflexivity.
Qed.

Lemma processFilePathAndContent_eq (p content : option string) (ic : bool)
    (fs : FileSystem) :
  processFilePathAndContent p content ic fs
  = match fileAt fs p with
    | Some _ => ([], Rejected ConflictingInputs, fs)
    | None =>
        (["Warning: Invalid file path '" ++ showPath p
            ++ "'. Using provided content."],
         Resolved {| out := processContent (str content) ic |}, fs)
    end.
Proof.
  unfold processFilePathAndContent. unfold bind at 1.
  rewrite succeeds_assertFileExists.
  destruct (fileAt fs p); reflexivity.
Qed.

Lemma truthy_fileAt (fs : FileSystem) (p : option string) :
  truthy p = false -> fileAt fs p = None.
Proof.
  destruct p as [q|]; cbn; [|reflexivity].
  destruct (q =? ""); [reflexivity | discriminate].
Qed.

(** ** The empty content *)

(** C10: a call with the empty content behaves, in every mode, like the
    call without content.  When [repeated] is not set: without an existing
    file at [filePath] it rejects with the invalid-path error; with one, it
    never rejects for conflicting inputs, and without an output path it
    resolves to the processed text of the file. *)
Theorem empty_content_is_absent (o : zUniqOptions) (fs : FileSystem) :
  zuniq (withContent o (Some "")) fs = zuniq (withContent o None) fs
  /\ (repeated o = false -> fileAt fs (filePath o) = None ->
      zuniq (withContent o (Some "")) fs
      = ([], Rejected (InvalidPath (filePath o)), fs))
  /\ (forall c, repeated o = false -> fileAt fs (filePath o) = Some c ->
      settledValue (zuniq (withContent o (Some "")) fs) <> Rejected ConflictingInputs
      /\ (outputPath o = None ->
          zuniq (withContent o (Some "")) fs
          = ([], Resolved {| out :=
                 if count o
                 then getOutputWithCount (processContent c (ignoreCase o))
                        (buildLinesCount c false) true
                 else processContent c (ignoreCase o) |}, fs))).
Proof.
  split; [reflexivity|]. split.
  - intros Hr Hf. unfold zuniq. cbn [withContent repeated unique filePath content
      count outputPath ignoreCase]. rewrite Hr. cbn [andb truthy].
    rewrite Bool.andb_false_r. cbn [String.eqb negb].
    unfold bind. rewrite assertFileExists_eq, Hf. reflexivity.
  - intros c Hr Hf.
    unfold zuniq. cbn [withContent repeated unique filePath content
        count outputPath ignoreCase]. rewrite Hr. cbn [andb truthy].
    rewrite Bool.andb_false_r. cbn [String.eqb negb].
    destruct (count o); destruct (outputPath o) as [q|];
      try destruct (q =? "") eqn:Hq; cbn [truthy negb str]; try rewrite Hq;
      cbn [negb]; unfold bind, ret;
      rewrite ?assertFileExists_eq, ?Hf; unfold readFile; rewrite ?Hf;
      rewrite ?getRawContent_eq, ?Hf;
      cbn -[processContent getOutputWithCount buildLinesCount writeToOutputFile];
      rewrite ?writeToOutputFile_eq; try destruct (writable fs q);
      cbn -[processContent getOutputWithCount buildLinesCount];
      (split; [discriminate | first [discriminate | reflexivity]]).
Qed.

Lemma empty_content_is_absent_witness :
  zuniq (withContent defaults (Some "")) (oneFile "f.txt" (text ["a"; "a"]))
  = ([], Rejected (InvalidPath None), oneFile "f.txt" (text ["a"; "a"]))
  /\ zuniq {| filePath := Some "f.txt"; content := Some ""; outputPath := None;
              count := true; repeated := false; unique := false;
              ignoreCase := false |} (oneFile "f.txt" (text ["a"; "a"]))
     = ([], Resolved {| out := join ["2 a"; "1 "] |}, oneFile "f.txt" (text ["a"; "a"])).
Proof.
  split.
  - apply (proj1 (proj2 (empty_content_is_absent defaults (oneFile "f.txt" (text ["a"; "a"]))))); reflexivity.
  - apply (proj2 (proj2 (proj2 (empty_content_is_absent
       {| filePath := Some "f.txt"; content := None; outputPath := None;
          count := true; repeated := false; unique := false; ignoreCase := false |}
       (oneFile "f.txt" (text ["a"; "a"]))))
       (text ["a"; "a"]) eq_refl eq_refl) eq_refl).
Defined.

(** C10, as stated: with both [repeated] and [unique] set, a call with the
    empty content and no path resolves. *)
Lemma empty_content_resolves_in_degraded_mode :
  ~ (forall (o : zUniqOptions) (fs : FileSystem),
       content o = Some "" -> filePath o = None ->
       exists p, settledValue (zuniq o fs) = Rejected (InvalidPath p)).
Proof.
  intros H.
  destruct (H {| filePath := None; content := Some ""; outputPath := None;
                 count := false; repeated := true; unique := true;
                 ignoreCase := false |} (oneFile "f.txt" "x") eq_refl eq_refl)
    as [p Hp].
  discriminate Hp.
Qed.

(** ** Lines and texts *)

Lemma split_not_nil (s : string) : split s <> [].
Proof.
  induction s as [|c t IH]; cbn; [discriminate|].
  destruct (isLF c); [discriminate|].
  destruct (split t); discriminate.
Qed.

Lemma join_cons_cons (x y : string) (t : list string) :
  join (x :: y :: t) = x ++ String LF (join (y :: t)).
Proof. reflexivity. Qed.

Lemma join_split (s : string) : join (split s) = s.
Proof.
  induction s as [|c t IH]; [reflexivity|].
  cbn [split]. destruct (isLF c) eqn:Hc.
  - destruct (split t) as [|h r] eqn:Hs; [destruct (split_not_nil t Hs)|].
    rewrite join_cons_cons, IH. cbn. unfold isLF in Hc.
    apply Ascii.eqb_eq in Hc. subst c. reflexivity.
  - destruct (split t) as [|h r] eqn:Hs; [destruct (split_not_nil t Hs)|].
    rewrite <- IH. destruct r; reflexivity.
Qed.

Lemma split_no_LF (x : string) : hasLF x = false -> split x = [x].
Proof.
  induction x as [|c t IH]; [reflexivity|].
  cbn. destruct (isLF c); [discriminate|]. cbn. intros H.
  rewrite (IH H). reflexivity.
Qed.

Lemma split_app_LF (x r : string) :
  hasLF x = false -> split (x ++ String LF r) = x :: split r.
Proof.
  induction x as [|c t IH]; [reflexivity|].
  cbn. destruct (isLF c); [discriminate|]. cbn. intros H.
  rewrite (IH H). reflexivity.
Qed.

Lemma split_join (l : list string) :
  l <> [] -> Forall (fun x => hasLF x = false) l -> split (join l) = l.
Proof.
  induction l as [|x t IH]; [congruence|]. intros _ H.
  inversion H as [|? ? Hx Ht]; subst.
  destruct t as [|y t'].
  - cbn. apply split_no_LF, Hx.
  - rewrite join_cons_cons, split_app_LF by exact Hx.
    rewrite IH; [reflexivity | discriminate | exact Ht].
Qed.

Lemma split_lines_no_LF (s : string) : Forall (fun x => hasLF x = false) (split s).
Proof.
  induction s as [|c t IH]; cbn.
  - repeat constructor.
  - destruct (isLF c) eqn:Hc.
    + constructor; [reflexivity | exact IH].
    + destruct (split t) as [|h r]; [repeat constructor; cbn; rewrite Hc; reflexivity|].
      inversion IH; subst. constructor; [cbn; rewrite Hc; assumption | assumption].
Qed.

Lemma isLF_not_CR (c : ascii) : isLF c = true -> isCR c = false.
Proof.
  unfold isLF, isCR. intros H. apply Ascii.eqb_eq in H. subst c. reflexivity.
Qed.

Lemma split_lines_no_CR (s : string) :
  hasCR s = false -> Forall (fun x => hasCR x = false) (split s).
Proof.
  induction s as [|c t IH]; cbn.
  - repeat constructor.
  - intros H. apply Bool.orb_false_iff in H. destruct H as [Hc Ht].
    specialize (IH Ht). destruct (isLF c).
    + constructor; [reflexivity | exact IH].
    + destruct (split t) as [|h r]; [repeat constructor; cbn; rewrite Hc; reflexivity|].
      inversion IH; subst. constructor; [cbn; rewrite Hc; assumption | assumption].
Qed.

Lemma hasCR_app (a b : string) : hasCR (a ++ b) = hasCR a || hasCR b.
Proof.
  induction a as [|c t IH]; [reflexivity|].
  cbn. rewrite IH. apply Bool.orb_assoc.
Qed.

Lemma hasCR_join (l : list string) :
  Forall (fun x => hasCR x = false) l -> hasCR (join l) = false.
Proof.
  induction l as [|x t IH]; [reflexivity|]. intros H.
  inversion H as [|? ? Hx Ht]; subst.
  destruct t as [|y t']; [exact Hx|].
  rewrite join_cons_cons, hasCR_app, Hx. cbn [orb hasCR].
  rewrite (IH Ht). reflexivity.
Qed.

Lemma removeCR_no_CR (x : string) : hasCR x = false -> removeCR x = x.
Proof.
  induction x as [|c t IH]; [reflexivity|].
  cbn. destruct (isCR c); [discriminate|]. cbn. intros H. rewrite (IH H). reflexivity.
Qed.
(** ** The filter as a scan *)

Lemma keepLine_after (pre : list string) (p y : string) (t : list string)
    (ic : bool) :
  keepLine (pre ++ p :: t) ic (S (List.length pre)) y = keeps ic (Some p) y.
Proof.
  unfold keepLine, keeps, isBlank, compareLineWithPreviousLine, sameLine.
  cbn [Nat.eqb orb Nat.sub]. rewrite Nat.sub_0_r.
  rewrite nth_error_app2 by apply le_n. rewrite Nat.sub_diag. cbn [nth_error].
  destruct (removeCR y =? ""); destruct ic; reflexivity.
Qed.

Lemma filteri_keepLine_after (ic : bool) (l pre : list string) (p : string) :
  filteri (keepLine (pre ++ p :: l) ic) (S (List.length pre)) l
  = keepFrom ic (Some p) l.
Proof.
  revert pre p. induction l as [|y t IH]; intros pre p; [reflexivity|].
  cbn [filteri keepFrom]. rewrite keepLine_after.
  specialize (IH (pre ++ [p])%list y).
  rewrite <- app_assoc, length_app in IH. cbn [List.length app] in IH.
  rewrite Nat.add_1_r in IH. rewrite IH. reflexivity.
Qed.

Lemma keepLine_first (lines : list string) (ic : bool) (x : string) :
  keepLine lines ic 0 x = true.
Proof.
  unfold keepLine, compareLineWithPreviousLine.
  destruct (removeCR x =? ""); destruct ic; reflexivity.
Qed.

Lemma uniqueLines_scan (content : string) (ic : bool) :
  uniqueLines content ic = keepFrom ic None (split content).
Proof.
  unfold uniqueLines. destruct (split content) as [|x t]; [reflexivity|].
  cbn [filteri keepFrom]. rewrite keepLine_first.
  unfold keeps. rewrite Bool.orb_true_r.
  exact (f_equal (cons x) (filteri_keepLine_after ic t [] x)).
Qed.

Lemma keepFrom_Forall (P : string -> Prop) (ic : bool) (l : list string)
    (p : option string) :
  Forall P l -> Forall P (keepFrom ic p l).
Proof.
  revert p. induction l as [|x t IH]; intros p H; [constructor|].
  inversion H; subst. cbn. destruct (keeps ic p x); [constructor|]; auto.
Qed.

Lemma keepFrom_blank (ic : bool) (l : list string) (p : option string) :
  filter isBlank (keepFrom ic p l) = filter isBlank l.
Proof.
  revert p. induction l as [|x t IH]; intros p; [reflexivity|].
  cbn [keepFrom filter]. unfold keeps.
  destruct (isBlank x) eqn:Hb; cbn [orb].
  - cbn [filter]. rewrite Hb, IH. reflexivity.
  - destruct p as [a|]; [destruct (negb (sameLine ic a (removeCR x)))|];
      cbn [filter]; rewrite ?Hb; apply IH.
Qed.
(** ** Blank lines *)

Lemma collapseLF_cons_not_LF (c : ascii) (t : string) :
  isLF c = false -> collapseLF (String c t) = String c (collapseLF t).
Proof. intros H. cbn. rewrite H. reflexivity. Qed.

Lemma hasDoubleLF_collapseLF (s : string) : hasDoubleLF (collapseLF s) = false.
Proof.
  induction s as [|c t IH]; [reflexivity|].
  destruct (isLF c) eqn:Hc.
  - cbn [collapseLF]. rewrite Hc. destruct t as [|d r]; [cbn; rewrite Hc; reflexivity|].
    destruct (isLF d) eqn:Hd; [exact IH|].
    rewrite collapseLF_cons_not_LF in * by exact Hd.
    cbn [hasDoubleLF] in *. rewrite Hd in *. cbn [andb orb] in *.
    rewrite Bool.andb_false_r. exact IH.
  - rewrite collapseLF_cons_not_LF by exact Hc.
    cbn [hasDoubleLF]. rewrite Hc. exact IH.
Qed.

(** C2, as stated: the empty line between [a] and [b] is a line of the
    input and not of the output. *)
Lemma inner_blank_line_is_lost : ~ blankLinesRetained false (text ["a"; ""; "b"]).
Proof. unfold blankLinesRetained. vm_compute. lia. Qed.

(** ** Texts without doubled line feeds *)

Lemma hasDoubleLF_no_LF (x : string) : hasLF x = false -> hasDoubleLF x = false.
Proof.
  induction x as [|c t IH]; [reflexivity|].
  cbn. destruct (isLF c); [discriminate|]. cbn. exact IH.
Qed.

Lemma join_cons_is_empty (y : string) (t : list string) :
  (join (y :: t) =? "") = (y =? "") && match t with [] => true | _ => false end.
Proof.
  destruct t as [|z t'].
  - cbn. rewrite Bool.andb_true_r. reflexivity.
  - rewrite join_cons_cons. destruct y; reflexivity.
Qed.

Lemma hasDoubleLF_app_LF (x r : string) :
  hasLF x = false ->
  hasDoubleLF (x ++ String LF r)
  = match r with String d _ => isLF d | EmptyString => false end || hasDoubleLF r.
Proof.
  induction x as [|c t IH]; [reflexivity|].
  cbn [hasLF]. destruct (isLF c) eqn:Hc; [discriminate|]. cbn [orb]. intros H.
  cbn [append hasDoubleLF]. rewrite Hc. cbn [andb orb]. exact (IH H).
Qed.

Lemma head_of_join_is_LF (y : string) (t : list string) :
  hasLF y = false ->
  match join (y :: t) with String d _ => isLF d | EmptyString => false end
  = (y =? "") && match t with [] => false | _ => true end.
Proof.
  intros Hy. destruct t as [|z t'].
  - cbn [join]. destruct y as [|c y']; [reflexivity|].
    cbn in Hy. destruct (isLF c); [discriminate | reflexivity].
  - rewrite join_cons_cons. destruct y as [|c y']; [reflexivity|].
    cbn in Hy. cbn. destruct (isLF c); [discriminate | reflexivity].
Qed.

Lemma hasDoubleLF_join (x : string) (l : list string) :
  Forall (fun y => hasLF y = false) (x :: l) ->
  hasDoubleLF (join (x :: l)) = negb (nonEmptyButLast l).
Proof.
  revert x. induction l as [|y t IH]; intros x H.
  - inversion H; subst. cbn. apply hasDoubleLF_no_LF. assumption.
  - inversion H as [|? ? Hx Hl]; subst.
    rewrite join_cons_cons, hasDoubleLF_app_LF by exact Hx.
    inversion Hl as [|? ? Hy Ht]; subst.
    rewrite head_of_join_is_LF by exact Hy. rewrite (IH y Hl).
    destruct t as [|z t'].
    + cbn. rewrite Bool.andb_false_r. reflexivity.
    + cbn [nonEmptyButLast]. rewrite Bool.andb_true_r.
      rewrite Bool.negb_andb, Bool.negb_involutive. reflexivity.
Qed.

Lemma hasDoubleLF_join_lines (l : list string) :
  Forall (fun y => hasLF y = false) l ->
  hasDoubleLF (join l) = negb (noInnerEmptyLine l).
Proof.
  destruct l as [|x t]; [reflexivity|]. apply hasDoubleLF_join.
Qed.

Lemma collapseLF_fixed (s : string) : hasDoubleLF s = false -> collapseLF s = s.
Proof.
  induction s as [|c t IH]; [reflexivity|].
  cbn [hasDoubleLF collapseLF]. intros H. apply Bool.orb_false_iff in H.
  destruct H as [H1 H2]. rewrite (IH H2).
  destruct (isLF c); [|reflexivity].
  destruct t as [|d r]; [reflexivity|].
  cbn in H1. rewrite H1. reflexivity.
Qed.

Lemma allLF_no_double (s : string) :
  allLF s = true -> hasDoubleLF s = false -> s = "" \/ s = lf.
Proof.
  destruct s as [|c [|d r]]; cbn.
  - auto.
  - rewrite Bool.andb_true_r. unfold isLF. intros H _.
    apply Ascii.eqb_eq in H. subst c. auto.
  - intros H1 H2. apply Bool.andb_true_iff in H1. destruct H1 as [Hc H1].
    apply Bool.andb_true_iff in H1. destruct H1 as [Hd _].
    rewrite Hc, Hd in H2. discriminate.
Qed.

Lemma replaceTrailingNewlines_fixed (s : string) :
  hasCR s = false -> hasDoubleLF s = false -> replaceTrailingNewlines s = s.
Proof.
  induction s as [|c t IH]; [reflexivity|].
  intros HCR HD. cbn [hasCR] in HCR. apply Bool.orb_false_iff in HCR.
  destruct HCR as [Hc Ht].
  assert (HDt : hasDoubleLF t = false).
  { cbn [hasDoubleLF] in HD. apply Bool.orb_false_iff in HD. apply HD. }
  cbn [replaceTrailingNewlines]. unfold trailingNewlinesHere.
  rewrite Hc. cbn [andb]. rewrite Bool.orb_false_r.
  destruct (isLF c) eqn:HL; cbn [andb].
  - destruct (allLF t) eqn:HA.
    + destruct (allLF_no_double _ HA HDt) as [E|E]; subst t.
      * unfold isLF in HL. apply Ascii.eqb_eq in HL. subst c. reflexivity.
      * cbn in HD. rewrite HL in HD. discriminate.
    + rewrite (IH Ht HDt). reflexivity.
  - rewrite (IH Ht HDt). reflexivity.
Qed.

(** ** The end of a text *)

Lemma endsWithLF_cons (c : ascii) (t : string) :
  endsWithLF (String c t) = if t =? "" then isLF c else endsWithLF t.
Proof. destruct t; reflexivity. Qed.

Lemma allLF_endsWithLF (c : ascii) (t : string) :
  isLF c = true -> allLF t = true -> endsWithLF (String c t) = true.
Proof.
  revert c. induction t as [|d r IH]; intros c Hc H; [exact Hc|].
  cbn in H. apply Bool.andb_true_iff in H. destruct H as [Hd Hr].
  change (endsWithLF (String d r) = true). apply IH; assumption.
Qed.

Lemma trailingNewlinesHere_endsWithLF (s : string) :
  trailingNewlinesHere s = true -> endsWithLF s = true.
Proof.
  destruct s as [|c t]; [discriminate|]. unfold trailingNewlinesHere.
  intros H. apply Bool.orb_true_iff in H. destruct H as [H|H];
    apply Bool.andb_true_iff in H; destruct H as [Hc Ht].
  - apply allLF_endsWithLF; assumption.
  - destruct t as [|d r]; [discriminate|].
    cbn in Ht. apply Bool.andb_true_iff in Ht. destruct Ht as [Hd Hr].
    change (endsWithLF (String d r) = true). apply allLF_endsWithLF; assumption.
Qed.

Lemma matchTrailingNewlines_cons (c : ascii) (t : string) :
  matchTrailingNewlines (String c t)
  = if trailingNewlinesHere (String c t) then Some (String c t)
    else matchTrailingNewlines t.
Proof. reflexivity. Qed.

(** The input has a trailing newline, as [getTrailingNewlinesCount] sees
    it, exactly when it ends with a line feed. *)
Lemma trailing_count_positive (s : string) :
  (1 <=? getTrailingNewlinesCount s)%nat = endsWithLF s.
Proof.
  unfold getTrailingNewlinesCount.
  induction s as [|c t IH]; [reflexivity|].
  rewrite matchTrailingNewlines_cons.
  destruct (trailingNewlinesHere (String c t)) eqn:H.
  - rewrite (trailingNewlinesHere_endsWithLF _ H). reflexivity.
  - rewrite IH, endsWithLF_cons. destruct t as [|d r]; [|reflexivity].
    cbn in H. cbn. rewrite Bool.andb_true_r, Bool.andb_false_r, Bool.orb_false_r in H.
    symmetry. exact H.
Qed.

Lemma endsWithLF_no_LF (x : string) : hasLF x = false -> endsWithLF x = false.
Proof.
  induction x as [|c t IH]; [reflexivity|].
  cbn [hasLF]. intros H. apply Bool.orb_false_iff in H. destruct H as [Hc Ht].
  rewrite endsWithLF_cons. destruct (t =? ""); [exact Hc | exact (IH Ht)].
Qed.

Lemma endsWithLF_app_LF (x r : string) :
  endsWithLF (x ++ String LF r) = if r =? "" then true else endsWithLF r.
Proof.
  induction x as [|c t IH].
  - cbn [append]. rewrite endsWithLF_cons. reflexivity.
  - cbn [append]. rewrite endsWithLF_cons, IH.
    destruct t; reflexivity.
Qed.

Lemma endsWithLF_join (x : string) (l : list string) :
  Forall (fun y => hasLF y = false) (x :: l) ->
  endsWithLF (join (x :: l)) = lastEmpty l.
Proof.
  revert x. induction l as [|y t IH]; intros x H.
  - inversion H; subst. cbn. apply endsWithLF_no_LF. assumption.
  - inversion H as [|? ? Hx Hl]; subst.
    rewrite join_cons_cons, endsWithLF_app_LF, join_cons_is_empty, (IH y Hl).
    destruct t as [|z t'].
    + rewrite Bool.andb_true_r. cbn [lastEmpty]. destruct (y =? ""); reflexivity.
    + rewrite Bool.andb_false_r. reflexivity.
Qed.

Lemma keepFrom_nonEmptyButLast (ic : bool) (l : list string) (p : option string) :
  nonEmptyButLast l = true -> nonEmptyButLast (keepFrom ic p l) = true.
Proof.
  revert p. induction l as [|y t IH]; intros p H; [reflexivity|].
  cbn [keepFrom].
  assert (Ht : nonEmptyButLast t = true).
  { destruct t as [|z t']; [reflexivity|].
    cbn [nonEmptyButLast] in H. apply Bool.andb_true_iff in H. apply H. }
  specialize (IH (Some y) Ht).
  destruct (keeps ic p y); [|exact IH].
  destruct (keepFrom ic (Some y) t) as [|k K] eqn:HK; [reflexivity|].
  change (negb (y =? "") && nonEmptyButLast (k :: K) = true).
  rewrite IH, Bool.andb_true_r.
  destruct t as [|z t']; [discriminate HK|].
  cbn [nonEmptyButLast] in H. apply Bool.andb_true_iff in H. apply H.
Qed.

Lemma keeps_empty (ic : bool) (p : option string) : keeps ic p "" = true.
Proof. reflexivity. Qed.

Lemma keepFrom_lastEmpty (ic : bool) (l : list string) (p : option string) :
  lastEmpty l = true -> lastEmpty (keepFrom ic p l) = true.
Proof.
  revert p. induction l as [|y t IH]; intros p H; [discriminate|].
  cbn [keepFrom]. destruct t as [|z t'].
  - cbn in H. apply String.eqb_eq in H. subst y. reflexivity.
  - specialize (IH (Some y) H).
    destruct (keeps ic p y); [|exact IH].
    destruct (keepFrom ic (Some y) (z :: t')); [discriminate IH | exact IH].
Qed.

(** ** The comparison of lines *)

Lemma sameLine_spec (ic : bool) (a b : string) :
  sameLine ic a b = true
  <-> (if ic then toLowerCase a = toLowerCase b else a = b).
Proof. unfold sameLine. destruct ic; apply String.eqb_eq. Qed.

Lemma sameLine_refl (ic : bool) (a : string) : sameLine ic a a = true.
Proof. apply sameLine_spec. destruct ic; reflexivity. Qed.

Lemma sameLine_left (ic : bool) (a b y : string) :
  sameLine ic a b = true -> sameLine ic a y = sameLine ic b y.
Proof.
  intros H. apply sameLine_spec in H. unfold sameLine.
  destruct ic; rewrite H; reflexivity.
Qed.


Lemma keeps_samePrevious (ic : bool) (p q : option string) (x : string) :
  samePrevious ic p q = true -> keeps ic p x = keeps ic q x.
Proof.
  unfold keeps. destruct p as [a|], q as [b|]; cbn; try discriminate; [|reflexivity].
  intros H. rewrite (sameLine_left ic a b _ H). reflexivity.
Qed.


(** ** Trailing white space *)

Lemma trimEnd_fixed (s : string) : lastIsWhiteSpace s = false -> trimEnd s = s.
Proof.
  induction s as [|c t IH]; [reflexivity|].
  cbn [lastIsWhiteSpace trimEnd]. destruct t as [|d r].
  - intros H. cbn. rewrite H. reflexivity.
  - intros H. rewrite (IH H). reflexivity.
Qed.












(** ** Idempotence *)

Lemma keepFrom_first (ic : bool) (x : string) (t : list string) :
  keepFrom ic None (x :: t) = x :: keepFrom ic (Some x) t.
Proof. cbn. unfold keeps. rewrite Bool.orb_true_r. reflexivity. Qed.

Section PlainText.

Variable s : string.
Variable ic : bool.
Hypothesis no_CR : hasCR s = false.
Hypothesis no_double_LF : hasDoubleLF s = false.

Lemma kept_no_LF : Forall (fun x => hasLF x = false) (uniqueLines s ic).
Proof. rewrite uniqueLines_scan. apply keepFrom_Forall, split_lines_no_LF. Qed.

Lemma kept_no_CR : Forall (fun x => hasCR x = false) (uniqueLines s ic).
Proof. rewrite uniqueLines_scan. apply keepFrom_Forall, split_lines_no_CR, no_CR. Qed.

Lemma kept_not_nil : uniqueLines s ic <> [].
Proof.
  rewrite uniqueLines_scan.
  destruct (split s) as [|x t] eqn:Hs; [destruct (split_not_nil s Hs)|].
  rewrite keepFrom_first. discriminate.
Qed.

Lemma kept_no_double_LF : hasDoubleLF (join (uniqueLines s ic)) = false.
Proof.
  rewrite hasDoubleLF_join_lines by apply kept_no_LF.
  apply Bool.negb_false_iff.
  assert (H : noInnerEmptyLine (split s) = true).
  { apply Bool.negb_false_iff.
    rewrite <- hasDoubleLF_join_lines by apply split_lines_no_LF.
    rewrite join_split. exact no_double_LF. }
  rewrite uniqueLines_scan. destruct (split s) as [|x t]; [reflexivity|].
  rewrite keepFrom_first. cbn in H |- *. apply keepFrom_nonEmptyButLast, H.
Qed.



Lemma normal_steps_fixed :
  collapseLF (join (uniqueLines s ic)) = join (uniqueLines s ic)
  /\ replaceTrailingNewlines (join (uniqueLines s ic)) = join (uniqueLines s ic).
Proof.
  split.
  - apply collapseLF_fixed, kept_no_double_LF.
  - apply replaceTrailingNewlines_fixed;
      [apply hasCR_join, kept_no_CR | apply kept_no_double_LF].
Qed.

Lemma processContent_plain :
  processContent s ic
  = if endsWithLF s then join (uniqueLines s ic)
    else trimEnd (join (uniqueLines s ic)).
Proof.
  unfold processContent, updateTrailingNewlines.
  rewrite trailing_count_positive.
  destruct normal_steps_fixed as [-> ->]. reflexivity.
Qed.


End PlainText.




(** ** What the filter keeps *)

Lemma keeps_no_CR (ic : bool) (a b : string) :
  hasCR b = false ->
  keeps ic (Some a) b = isBlank b || negb (sameLine ic a b).
Proof. intros H. unfold keeps. rewrite (removeCR_no_CR b H). reflexivity. Qed.

Lemma keptAfter_samePrevious (ic : bool) (p q : option string) (l : list string) :
  samePrevious ic p q = true -> keptAfter ic p l = keptAfter ic q l.
Proof. intros H. destruct l; [reflexivity|]. apply keeps_samePrevious, H. Qed.

Lemma dropped_same (ic : bool) (p : option string) (x : string) :
  hasCR x = false -> keeps ic p x = false -> samePrevious ic p (Some x) = true.
Proof.
  intros Hx Hk. unfold keeps in Hk. apply Bool.orb_false_iff in Hk.
  destruct Hk as [_ Hk]. destruct p as [a|]; [|discriminate].
  apply Bool.negb_false_iff in Hk. rewrite (removeCR_no_CR x Hx) in Hk. exact Hk.
Qed.

Lemma keepFrom_noAdjacentDuplicates (ic : bool) (l : list string) (p : option string) :
  Forall (fun x => hasCR x = false) l ->
  noAdjacentDuplicates ic (keepFrom ic p l) = true
  /\ keptAfter ic p (keepFrom ic p l) = true.
Proof.
  revert p. induction l as [|x t IH]; intros p H; [split; reflexivity|].
  inversion H as [|? ? Hx Ht]; subst.
  destruct (IH (Some x) Ht) as [IH1 IH2].
  cbn [keepFrom]. destruct (keeps ic p x) eqn:Hk.
  - split; [|exact Hk].
    destruct (keepFrom ic (Some x) t) as [|k K] eqn:HK; [reflexivity|].
    change ((isBlank k || negb (sameLine ic x k))
            && noAdjacentDuplicates ic (k :: K) = true).
    rewrite IH1, Bool.andb_true_r.
    assert (Hkc : hasCR k = false).
    { pose proof (keepFrom_Forall _ ic t (Some x) Ht) as HF.
      rewrite HK in HF. inversion HF; assumption. }
    rewrite <- keeps_no_CR by exact Hkc. exact IH2.
  - split; [exact IH1|].
    rewrite (keptAfter_samePrevious ic p (Some x)); [exact IH2|].
    apply dropped_same; assumption.
Qed.

Lemma keepFrom_all (ic : bool) (l : list string) (p : option string) :
  Forall (fun x => hasCR x = false) l ->
  keptAfter ic p l = true -> noAdjacentDuplicates ic l = true ->
  keepFrom ic p l = l.
Proof.
  revert p. induction l as [|x t IH]; intros p H Hp HA; [reflexivity|].
  inversion H as [|? ? Hx Ht]; subst.
  cbn in Hp. cbn [keepFrom]. rewrite Hp. f_equal.
  destruct t as [|y t']; [reflexivity|].
  change ((isBlank y || negb (sameLine ic x y))
          && noAdjacentDuplicates ic (y :: t') = true) in HA.
  apply Bool.andb_true_iff in HA. destruct HA as [HA1 HA2].
  apply IH; [exact Ht | | exact HA2].
  cbn. inversion Ht; subst. rewrite keeps_no_CR by assumption. exact HA1.
Qed.

Lemma keepFrom_Subsequence (ic : bool) (l : list string) (p : option string) :
  Subsequence (keepFrom ic p l) l.
Proof.
  revert p. induction l as [|x t IH]; intros p; [constructor|].
  cbn. destruct (keeps ic p x); constructor; apply IH.
Qed.

Lemma sameLine_exact_fold (a b : string) :
  sameLine false a b = true -> sameLine true a b = true.
Proof.
  intros H. apply sameLine_spec in H. apply sameLine_spec. cbn in *. congruence.
Qed.

Lemma keeps_fold_exact (p : option string) (x : string) :
  keeps true p x = true -> keeps false p x = true.
Proof.
  unfold keeps. destruct (isBlank x); [reflexivity|]. cbn [orb].
  destruct p as [a|]; [|reflexivity].
  destruct (sameLine false a (removeCR x)) eqn:E; [|reflexivity].
  rewrite (sameLine_exact_fold _ _ E). discriminate.
Qed.

Lemma keepFrom_fold_Subsequence (l : list string) (p : option string) :
  Subsequence (keepFrom true p l) (keepFrom false p l).
Proof.
  revert p. induction l as [|x t IH]; intros p; [constructor|].
  cbn [keepFrom]. destruct (keeps true p x) eqn:E.
  - rewrite (keeps_fold_exact p x E). constructor. apply IH.
  - destruct (keeps false p x); [constructor|]; apply IH.
Qed.

(** X1: the filter of [processContent], which looks the line before up by
    index in the array of all lines, is one pass that remembers the line
    before: the first line is kept, and a later line is kept exactly when
    it is blank or its form without carriage returns differs from the
    line before it as that line stands in the input. *)
Theorem filter_is_one_pass (content : string) (ignoreCase : bool) :
  uniqueLines content ignoreCase = keepFrom ignoreCase None (split content)
  /\ (forall (before : list string) (previous line : string) (rest : list string),
        keepLine (before ++ previous :: line :: rest) ignoreCase
          (S (List.length before)) line
        = isBlank line || negb (sameLine ignoreCase previous (removeCR line))).
Proof.
  split; [apply uniqueLines_scan|].
  intros before previous line rest. apply keepLine_after.
Qed.

(** X2: the kept lines are lines of the input, in the order of the
    input, and the first line of the input is always the first of them. *)
Theorem kept_lines_are_input_lines (content : string) (ignoreCase : bool) :
  Subsequence (uniqueLines content ignoreCase) (split content)
  /\ hd_error (uniqueLines content ignoreCase) = hd_error (split content).
Proof.
  rewrite uniqueLines_scan. split; [apply keepFrom_Subsequence|].
  destruct (split content) as [|x t]; [reflexivity|].
  rewrite keepFrom_first. reflexivity.
Qed.

(** X3: comparing without regard to case only drops more: the lines kept
    with [ignoreCase] are among the lines kept without it, in the same
    order. *)
Theorem ignoreCase_keeps_fewer_lines (content : string) :
  Subsequence (uniqueLines content true) (uniqueLines content false).
Proof. rewrite !uniqueLines_scan. apply keepFrom_fold_Subsequence. Qed.

(** X4: on an input without carriage returns, no kept line that is not
    empty follows a kept line equal to it under the comparison in use. *)
Theorem no_adjacent_duplicates_remain (content : string) (ignoreCase : bool) :
  hasCR content = false ->
  noAdjacentDuplicates ignoreCase (uniqueLines content ignoreCase) = true.
Proof.
  intros H. rewrite uniqueLines_scan.
  apply keepFrom_noAdjacentDuplicates, split_lines_no_CR, H.
Qed.

Lemma no_adjacent_duplicates_remain_witness :
  noAdjacentDuplicates true
    (uniqueLines (text ["a"; "A"; "b"; "B"; "a"; ""; ""; "a"]) true) = true.
Proof. apply no_adjacent_duplicates_remain. reflexivity. Defined.

(** ** The end of the output *)

Lemma trimEnd_no_trailing_white_space (t : string) :
  lastIsWhiteSpace (trimEnd t) = false.
Proof.
  induction t as [|c t IH]; [reflexivity|].
  cbn [trimEnd]. destruct (trimEnd t) as [|d r].
  - destruct (isWhiteSpace c) eqn:Hc; [reflexivity | cbn; exact Hc].
  - exact IH.
Qed.

Lemma collapseLF_cons (c : ascii) (t : string) :
  collapseLF (String c t)
  = if isLF c && match t with String d _ => isLF d | EmptyString => false end
    then collapseLF t else String c (collapseLF t).
Proof.
  cbn [collapseLF]. destruct (isLF c); [|reflexivity].
  destruct t as [|d r]; [reflexivity|]. cbn [andb]. destruct (isLF d); reflexivity.
Qed.

Lemma collapseLF_is_empty (t : string) : (collapseLF t =? "") = (t =? "").
Proof.
  induction t as [|c t IH]; [reflexivity|].
  rewrite collapseLF_cons.
  destruct (isLF c && match t with String d _ => isLF d | EmptyString => false end)
    eqn:E; [|reflexivity].
  rewrite IH. destruct t; [|reflexivity].
  rewrite Bool.andb_false_r in E. discriminate.
Qed.

Lemma endsWithLF_collapseLF (t : string) : endsWithLF (collapseLF t) = endsWithLF t.
Proof.
  induction t as [|c t IH]; [reflexivity|].
  rewrite collapseLF_cons, (endsWithLF_cons c t).
  destruct (isLF c && match t with String d _ => isLF d | EmptyString => false end)
    eqn:E.
  - rewrite IH. destruct t; [|reflexivity].
    rewrite Bool.andb_false_r in E. discriminate.
  - rewrite endsWithLF_cons, collapseLF_is_empty, IH. reflexivity.
Qed.

Lemma hasCR_collapseLF (t : string) : hasCR (collapseLF t) = hasCR t.
Proof.
  induction t as [|c t IH]; [reflexivity|].
  rewrite collapseLF_cons.
  destruct (isLF c && match t with String d _ => isLF d | EmptyString => false end)
    eqn:E.
  - apply Bool.andb_true_iff in E. destruct E as [E _].
    cbn [hasCR]. rewrite (isLF_not_CR c E). exact IH.
  - cbn [hasCR]. rewrite IH. reflexivity.
Qed.

(** X5: an input that ends with a line feed and holds no carriage return
    gives an output that ends with a line feed and holds no two line
    feeds in a row: it ends with exactly one. *)
Theorem output_ends_with_one_line_feed (content : string) (ignoreCase : bool) :
  hasCR content = false ->
  endsWithLF content = true ->
  endsWithLF (processContent content ignoreCase) = true
  /\ hasDoubleLF (processContent content ignoreCase) = false.
Proof.
  intros HCR HL. unfold processContent, updateTrailingNewlines.
  rewrite trailing_count_positive, HL.
  assert (HK : Forall (fun x => hasCR x = false) (uniqueLines content ignoreCase)).
  { rewrite uniqueLines_scan. apply keepFrom_Forall, split_lines_no_CR, HCR. }
  rewrite replaceTrailingNewlines_fixed;
    [| rewrite hasCR_collapseLF; apply hasCR_join, HK | apply hasDoubleLF_collapseLF].
  split; [|apply hasDoubleLF_collapseLF].
  rewrite endsWithLF_collapseLF.
  pose proof (split_lines_no_LF content) as HN.
  assert (HKN : Forall (fun x => hasLF x = false) (uniqueLines content ignoreCase)).
  { rewrite uniqueLines_scan. apply keepFrom_Forall, HN. }
  rewrite <- (join_split content) in HL.
  rewrite uniqueLines_scan in *.
  destruct (split content) as [|x t]; [discriminate|].
  rewrite endsWithLF_join in HL by exact HN.
  rewrite keepFrom_first in *.
  rewrite endsWithLF_join by exact HKN. apply keepFrom_lastEmpty, HL.
Qed.

Lemma output_ends_with_one_line_feed_witness :
  endsWithLF (processContent (text ["a"; ""; ""; "a"; ""; ""]) false) = true
  /\ hasDoubleLF (processContent (text ["a"; ""; ""; "a"; ""; ""]) false) = false.
Proof. apply output_ends_with_one_line_feed; reflexivity. Defined.

(** X6: an input that does not end with a line feed gives an output
    without white space at its end, carriage returns or not. *)
Theorem output_has_no_trailing_white_space (content : string) (ignoreCase : bool) :
  endsWithLF content = false ->
  lastIsWhiteSpace (processContent content ignoreCase) = false
  /\ trimEnd (processContent content ignoreCase) = processContent content ignoreCase.
Proof.
  intros HL. unfold processContent, updateTrailingNewlines.
  rewrite trailing_count_positive, HL.
  split; [apply trimEnd_no_trailing_white_space|].
  apply trimEnd_fixed, trimEnd_no_trailing_white_space.
Qed.

Lemma output_has_no_trailing_white_space_witness :
  lastIsWhiteSpace (processContent ("a" ++ lf ++ "b " ++ cr ++ lf ++ " ") true) = false
  /\ trimEnd (processContent ("a" ++ lf ++ "b " ++ cr ++ lf ++ " ") true)
     = processContent ("a" ++ lf ++ "b " ++ cr ++ lf ++ " ") true.
Proof. apply output_has_no_trailing_white_space. reflexivity. Defined.

(** X8: a text without carriage returns and doubled line feeds, which
    ends with a line feed or without white space, and in which no line
    that is not empty follows an equal one, is returned as it is. *)
Theorem deduplicated_text_is_unchanged (content : string) (ignoreCase : bool) :
  hasCR content = false ->
  hasDoubleLF content = false ->
  endsWithLF content = true \/ trimEnd content = content ->
  noAdjacentDuplicates ignoreCase (split content) = true ->
  processContent content ignoreCase = content.
Proof.
  intros HCR HD HE HA.
  rewrite (processContent_plain content ignoreCase HCR HD).
  assert (E : uniqueLines content ignoreCase = split content).
  { rewrite uniqueLines_scan.
    apply keepFrom_all; [apply split_lines_no_CR, HCR | | exact HA].
    destruct (split content); reflexivity || (cbn; unfold keeps; apply Bool.orb_true_r). }
  rewrite E, join_split.
  destruct (endsWithLF content); [reflexivity|].
  destruct HE as [HE|HE]; [discriminate | exact HE].
Qed.

Lemma deduplicated_text_is_unchanged_witness :
  processContent (text ["x"; "y"; "x"; "X"]) false = text ["x"; "y"; "x"; "X"].
Proof.
  apply deduplicated_text_is_unchanged; [reflexivity | reflexivity | left; reflexivity | reflexivity].
Defined.

Lemma allLF_app (a b : string) : allLF (a ++ b) = allLF a && allLF b.
Proof.
  induction a as [|c t IH]; [reflexivity|].
  cbn. rewrite IH. apply Bool.andb_assoc.
Qed.

Lemma allLF_repeatLF (n : nat) : allLF (repeatLF n) = true.
Proof. induction n; [reflexivity | exact IHn]. Qed.

Lemma length_repeatLF (n : nat) : String.length (repeatLF n) = n.
Proof. induction n; [reflexivity | cbn; rewrite IHn; reflexivity]. Qed.

Lemma allLF_ends (t : string) :
  allLF t = true -> (t =? "") = false -> endsWithLF t = true.
Proof.
  destruct t as [|c t]; [discriminate|]. cbn [allLF]. intros H _.
  apply Bool.andb_true_iff in H. destruct H. apply allLF_endsWithLF; assumption.
Qed.

Lemma endsWithCR_cons (c : ascii) (t : string) :
  endsWithCR (String c t) = if t =? "" then isCR c else endsWithCR t.
Proof. destruct t; reflexivity. Qed.

Lemma matchTrailingNewlines_skip (body tail : string) :
  endsWithLF body = false -> endsWithCR body = false ->
  matchTrailingNewlines (body ++ tail) = matchTrailingNewlines tail.
Proof.
  induction body as [|c t IH]; [reflexivity|].
  rewrite endsWithLF_cons, endsWithCR_cons. intros HL HC.
  cbn [append]. rewrite matchTrailingNewlines_cons.
  assert (E : trailingNewlinesHere (String c (t ++ tail)) = false).
  { unfold trailingNewlinesHere. destruct t as [|d r].
    - cbn in HL, HC. rewrite HL, HC. reflexivity.
    - cbn [String.eqb] in HL, HC.
      assert (A : allLF (String d r ++ tail) = false).
      { rewrite allLF_app. destruct (allLF (String d r)) eqn:A; [|reflexivity].
        rewrite (allLF_ends _ A eq_refl) in HL. discriminate. }
      cbn [append] in A |- *. rewrite A.
      rewrite !Bool.andb_false_r. reflexivity. }
  rewrite E. destruct t as [|d r]; [reflexivity|].
  cbn [String.eqb] in HL, HC. exact (IH HL HC).
Qed.

(** X7: the trailing newlines are counted as none exactly when the text
    does not end with a line feed; otherwise the count is the length of
    the last run of line feeds, with one more for a carriage return just
    before the run. *)
Theorem trailing_newlines_counted (content : string) :
  (getTrailingNewlinesCount content = 0 <-> endsWithLF content = false)
  /\ (forall n : nat,
        endsWithLF content = false -> endsWithCR content = false ->
        getTrailingNewlinesCount (content ++ repeatLF (S n)) = S n
        /\ getTrailingNewlinesCount (content ++ cr ++ repeatLF (S n)) = S (S n)).
Proof.
  split.
  - pose proof (trailing_count_positive content) as H.
    destruct (getTrailingNewlinesCount content), (endsWithLF content);
      cbn in H; split; intros; congruence.
  - intros n HL HC. unfold getTrailingNewlinesCount.
    rewrite !matchTrailingNewlines_skip by assumption.
    split.
    + cbn [repeatLF]. rewrite matchTrailingNewlines_cons.
      unfold trailingNewlinesHere. rewrite allLF_repeatLF. cbn.
      rewrite length_repeatLF. reflexivity.
    + cbn [repeatLF cr append]. rewrite matchTrailingNewlines_cons.
      unfold trailingNewlinesHere. cbn [allLF]. rewrite allLF_repeatLF. cbn.
      rewrite length_repeatLF. reflexivity.
Qed.

Lemma trailing_newlines_counted_witness :
  getTrailingNewlinesCount ("a" ++ lf ++ "b" ++ repeatLF 3) = 3
  /\ getTrailingNewlinesCount ("a" ++ lf ++ "b" ++ cr ++ repeatLF 3) = 4.
Proof.
  apply (proj2 (trailing_newlines_counted ("a" ++ lf ++ "b")) 2); reflexivity.
Defined.

(** X9: on a text without carriage returns and doubled line feeds that
    ends with a line feed, the output is the kept lines joined by line
    feeds and nothing else: its lines are the kept lines. *)
Theorem plain_text_output_is_kept_lines (content : string) (ignoreCase : bool) :
  hasCR content = false ->
  hasDoubleLF content = false ->
  endsWithLF content = true ->
  processContent content ignoreCase = join (uniqueLines content ignoreCase)
  /\ split (processContent content ignoreCase) = uniqueLines content ignoreCase.
Proof.
  intros HCR HD HL.
  assert (E : processContent content ignoreCase = join (uniqueLines content ignoreCase)).
  { rewrite (processContent_plain content ignoreCase HCR HD), HL. reflexivity. }
  split; [exact E|]. rewrite E.
  apply split_join; [apply kept_not_nil | apply kept_no_LF].
Qed.

Lemma plain_text_output_is_kept_lines_witness :
  processContent (text ["a"; "a"; "B"; "b"]) true
  = join (uniqueLines (text ["a"; "a"; "B"; "b"]) true)
  /\ split (processContent (text ["a"; "a"; "B"; "b"]) true)
     = uniqueLines (text ["a"; "a"; "B"; "b"]) true.
Proof. apply plain_text_output_is_kept_lines; reflexivity. Defined.

(** ** Effects on the file system *)

Create HintDb readonly.

Lemma readOnly_ret {A : Type} (a : A) : readOnly (ret a).
Proof. intros fs. reflexivity. Qed.

Lemma readOnly_throw {A : Type} (e : error) : readOnly (@throw A e).
Proof. intros fs. reflexivity. Qed.

Lemma readOnly_warn (msg : string) : readOnly (warn msg).
Proof. intros fs. reflexivity. Qed.

Lemma readOnly_bind {A B : Type} (m : M A) (f : A -> M B) :
  readOnly m -> (forall a, readOnly (f a)) -> readOnly (bind m f).
Proof.
  intros Hm Hf fs. unfold bind. specialize (Hm fs).
  destruct (m fs) as [[w [a|e]] fs']; cbn in Hm; subst fs'; [|reflexivity].
  specialize (Hf a fs). destruct (f a fs) as [[w' r] fs'']. exact Hf.
Qed.

Lemma readOnly_succeeds {A : Type} (m : M A) : readOnly m -> readOnly (succeeds m).
Proof.
  intros Hm fs. unfold succeeds. specialize (Hm fs).
  destruct (m fs) as [[w [a|e]] fs']; exact Hm.
Qed.

Lemma readOnly_assertFileExists (p : option string) : readOnly (assertFileExists p).
Proof.
  intros fs. rewrite assertFileExists_eq. destruct (fileAt fs p); reflexivity.
Qed.

Lemma readOnly_readFile (p : option string) : readOnly (readFile p).
Proof. intros fs. unfold readFile. destruct (fileAt fs p); reflexivity. Qed.

Lemma readOnly_if {A : Type} (b : bool) (m n : M A) :
  readOnly m -> readOnly n -> readOnly (if b then m else n).
Proof. destruct b; auto. Qed.

#[local] Hint Resolve readOnly_ret readOnly_throw readOnly_warn readOnly_bind
  readOnly_succeeds readOnly_assertFileExists readOnly_readFile readOnly_if
  : readonly.

Lemma readOnly_getRawContent (p content : option string) :
  readOnly (getRawContent p content).
Proof. unfold getRawContent. auto 10 with readonly. Qed.

Lemma readOnly_processFilePathAndContent (p content : option string) (ic : bool) :
  readOnly (processFilePathAndContent p content ic).
Proof. unfold processFilePathAndContent. auto 10 with readonly. Qed.

Lemma readOnly_processRepeatedLines (p content : option string) (cnt ic : bool) :
  readOnly (processRepeatedLines p content cnt ic).
Proof.
  unfold processRepeatedLines. apply readOnly_bind; [apply readOnly_getRawContent|].
  intros raw. cbv zeta. auto 10 with readonly.
Qed.

#[local] Hint Resolve readOnly_getRawContent readOnly_processFilePathAndContent
  readOnly_processRepeatedLines : readonly.

(** The two steps of [zuniq] before the output file is written. *)
Lemma readOnly_dispatch (opts : zUniqOptions) :
  readOnly
    (if truthy (filePath opts) && truthy (content opts) then
       processFilePathAndContent (filePath opts) (content opts) (ignoreCase opts)
     else if truthy (content opts) then
       ret {| out := processContent (str (content opts)) (ignoreCase opts) |}
     else
       assertFileExists (filePath opts) ;;;
       fileContent <- readFile (filePath opts) ;;
       ret {| out := processContent fileContent (ignoreCase opts) |}).
Proof. auto 12 with readonly. Qed.

Lemma readOnly_count_step (opts : zUniqOptions) (result : zUniqBaseOutput) :
  readOnly
    (if count opts then
       rawContent <- getRawContent (filePath opts) (content opts) ;;
       let linesCount := buildLinesCount rawContent false in
       ret {| out := getOutputWithCount (out result) linesCount (count opts) |}
     else ret result).
Proof. cbv zeta. auto 12 with readonly. Qed.

Lemma bind_readOnly_resolved {A B : Type} (m : M A) (f : A -> M B)
    (fs fs' : FileSystem) (w : list string) (b : B) :
  readOnly m -> bind m f fs = (w, Resolved b, fs') ->
  exists (a : A) (w1 w2 : list string),
    m fs = (w1, Resolved a, fs) /\ f a fs = (w2, Resolved b, fs').
Proof.
  intros Hm. unfold bind. specialize (Hm fs).
  destruct (m fs) as [[w1 [a|e]] fs1]; cbn in Hm; subst fs1; [|discriminate].
  destruct (f a fs) as [[w2 r] fs2] eqn:Hf. intros H. injection H as _ Hr Hfs.
  subst r fs2. exists a, w1, w2. split; [reflexivity | exact Hf].
Qed.

Lemma written_file (p c : string) (fs : FileSystem) :
  writable fs p = true ->
  readFile (Some p) (written fs p c) = ([], Resolved c, written fs p c)
  /\ forall q, q <> p -> fileAt (written fs p c) (Some q) = fileAt fs (Some q).
Proof.
  intros H. unfold writable in H. apply Bool.andb_true_iff in H.
  destruct H as [Hp _]. apply Bool.negb_true_iff in Hp. split.
  - unfold readFile, written, fileAt. cbn [files]. rewrite Hp.
    rewrite lookupFile_storeFile_same. reflexivity.
  - intros q Hq. unfold written, fileAt. cbn [files].
    destruct (q =? ""); [reflexivity|].
    apply lookupFile_storeFile_other. congruence.
Qed.

(** X10: whenever [writeToOutputFile] resolves, it has printed nothing,
    the file at the path holds the given text and every other path is as
    before.  It rejects with the invalid-path error exactly when nothing
    exists at the path and no file can be created there (the empty path
    is such a path); the error then names that path and the file system
    is as before. *)
Theorem output_file_written_when_resolved (outputFilePath text : string)
    (fs : FileSystem) :
  (forall (w : list string) (u : unit) (fs' : FileSystem),
     writeToOutputFile outputFilePath text fs = (w, Resolved u, fs') ->
     w = []
     /\ fileAt fs' (Some outputFilePath) = Some text
     /\ forall q, q <> outputFilePath -> fileAt fs' (Some q) = fileAt fs (Some q))
  /\ (forall q,
        settledValue (writeToOutputFile outputFilePath text fs)
        = Rejected (InvalidPath q)
        <-> (q = Some outputFilePath
             /\ fileAt fs (Some outputFilePath) = None
             /\ (outputFilePath = "" \/ creatable fs outputFilePath = false)))
  /\ (forall q,
        settledValue (writeToOutputFile outputFilePath text fs)
        = Rejected (InvalidPath q) ->
        snd (writeToOutputFile outputFilePath text fs) = fs).
Proof.
  rewrite writeToOutputFile_eq.
  assert (W : writable fs outputFilePath = false
              <-> (fileAt fs (Some outputFilePath) = None
                   /\ (outputFilePath = "" \/ creatable fs outputFilePath = false))).
  { unfold writable, fileAt.
    destruct (outputFilePath =? "") eqn:Hp; cbn [negb andb].
    - apply String.eqb_eq in Hp. split; [auto | reflexivity].
    - destruct (lookupFile (files fs) outputFilePath); cbn [orb].
      + split; [discriminate | intros [H _]; discriminate H].
      + split.
        * intros H. split; [reflexivity | right; exact H].
        * intros [_ [H|H]]; [subst; discriminate Hp | exact H]. }
  destruct (writable fs outputFilePath) eqn:Hw.
  - split; [|split].
    + intros w u fs' H. injection H as Hw' _ Hfs. subst w fs'.
      destruct (written_file outputFilePath text fs Hw) as [E1 E2].
      split; [reflexivity|]. split; [|exact E2].
      unfold readFile in E1.
      destruct (fileAt (written fs outputFilePath text) (Some outputFilePath));
        [injection E1 as E1; subst; reflexivity | discriminate E1].
    + intros q. cbn. split; [discriminate|].
      intros [_ H]. apply W in H. discriminate H.
    + intros q H. discriminate H.
  - split; [|split].
    + intros w u fs' H. discriminate H.
    + intros q. cbn. split.
      * intros H. injection H as H. subst q. split; [reflexivity|].
        apply W. reflexivity.
      * intros [H _]. subst q. reflexivity.
    + intros q _. reflexivity.
Qed.

Lemma output_file_written_when_resolved_witness :
  [] = ([] : list string)
  /\ fileAt (written (oneFile "f.txt" "x") "o.txt" "new") (Some "o.txt") = Some "new"
  /\ forall q, q <> "o.txt" ->
       fileAt (written (oneFile "f.txt" "x") "o.txt" "new") (Some q)
       = fileAt (oneFile "f.txt" "x") (Some q).
Proof.
  apply (proj1 (output_file_written_when_resolved "o.txt" "new" (oneFile "f.txt" "x"))
           [] tt (written (oneFile "f.txt" "x") "o.txt" "new")).
  reflexivity.
Defined.

(** X11: [getRawContent] never changes the file system.  It rejects for
    conflicting inputs exactly when something exists at the path and the
    content is not empty, and it never rejects when nothing exists at the
    path.  It prints its warning exactly when the content is not empty
    and nothing exists at the path; it then resolves to the content, and
    with neither to the empty text.  When something exists at the path
    and there is no content, whatever it resolves to is the text of that
    file. *)
Theorem raw_content_resolution (filePath content : option string) (fs : FileSystem) :
  snd (getRawContent filePath content fs) = fs
  /\ (settledValue (getRawContent filePath content fs) = Rejected ConflictingInputs
      <-> (fileAt fs filePath <> None /\ truthy content = true))
  /\ (forall e, settledValue (getRawContent filePath content fs) = Rejected e ->
                fileAt fs filePath <> None)
  /\ warnings (getRawContent filePath content fs)
     = (if truthy content
        then match fileAt fs filePath with
             | None => [contentUsedWarning filePath]
             | Some _ => []
             end
        else [])
  /\ (fileAt fs filePath = None ->
      settledValue (getRawContent filePath content fs)
      = Resolved (if truthy content then str content else ""))
  /\ (forall c v, fileAt fs filePath = Some c -> truthy content = false ->
      settledValue (getRawContent filePath content fs) = Resolved v -> v = c).
Proof.
  rewrite getRawContent_eq. unfold settledValue, warnings, contentUsedWarning.
  destruct (fileAt fs filePath) as [c|], (truthy content); cbn;
    repeat split; try congruence; try discriminate;
    try (intros [? ?]; congruence).
Qed.

Lemma raw_content_resolution_witness :
  settledValue (getRawContent (Some "nope") (Some "z") (oneFile "f.txt" "x"))
  = Resolved "z"
  /\ settledValue (getRawContent (Some "f.txt") (Some "z") (oneFile "f.txt" "x"))
     = Rejected ConflictingInputs.
Proof.
  split.
  - apply (proj1 (proj2 (proj2 (proj2 (proj2
      (raw_content_resolution (Some "nope") (Some "z") (oneFile "f.txt" "x")))))));
      reflexivity.
  - apply (proj2 (proj1 (proj2
      (raw_content_resolution (Some "f.txt") (Some "z") (oneFile "f.txt" "x"))))).
    split; [discriminate | reflexivity].
Defined.

(** X12: [zuniq] writes nothing unless an output path is given, and in the
    repeated mode it writes nothing even then: the file system after the
    call is the file system before it. *)
Theorem nothing_written_without_output_path (opts : zUniqOptions) (fs : FileSystem) :
  repeated opts = true \/ truthy (outputPath opts) = false ->
  snd (zuniq opts fs) = fs.
Proof.
  intros H. unfold zuniq.
  destruct (repeated opts) eqn:Hr.
  - destruct (unique opts); cbn [andb]; [reflexivity|].
    apply readOnly_processRepeatedLines.
  - destruct H as [H|H]; [discriminate|]. cbn [andb]. rewrite H. cbn [negb].
    apply readOnly_bind; [apply readOnly_dispatch|]. intros a.
    apply readOnly_bind; [apply readOnly_count_step|]. intros b.
    apply readOnly_ret.
Qed.

Lemma nothing_written_without_output_path_witness :
  snd (zuniq {| filePath := Some "f.txt"; content := None; outputPath := Some "o.txt";
                count := true; repeated := true; unique := false;
                ignoreCase := false |} (oneFile "f.txt" (text ["a"; "a"])))
  = oneFile "f.txt" (text ["a"; "a"]).
Proof. apply nothing_written_without_output_path. left. reflexivity. Defined.

(** X13: when [zuniq] resolves in the default mode with an output path,
    the file at that path holds the output it resolves to, and every
    other path is as before. *)
Theorem output_file_holds_result (opts : zUniqOptions) (fs fs' : FileSystem)
    (w : list string) (r : zUniqBaseOutput) :
  repeated opts = false ->
  truthy (outputPath opts) = true ->
  zuniq opts fs = (w, Resolved r, fs') ->
  readFile (outputPath opts) fs' = ([], Resolved (out r), fs')
  /\ forall q, Some q <> outputPath opts -> fileAt fs' (Some q) = fileAt fs (Some q).
Proof.
  intros Hr Ho. unfold zuniq. rewrite Hr, Ho. cbn [andb negb].
  intros H.
  apply (bind_readOnly_resolved _ _ fs fs' w r (readOnly_dispatch opts)) in H.
  destruct H as (a0 & w1 & w2 & _ & H).
  apply (bind_readOnly_resolved _ _ fs fs' w2 r (readOnly_count_step opts a0)) in H.
  destruct H as (a & w3 & w4 & _ & H).
  destruct (outputPath opts) as [p|]; [|discriminate Ho]. cbn [str] in H.
  unfold bind in H. rewrite writeToOutputFile_eq in H.
  destruct (writable fs p) eqn:Hw; [|discriminate H].
  cbn in H. injection H as _ Ha Hfs. subst a fs'.
  destruct (written_file p (out r) fs Hw) as [E1 E2].
  split; [exact E1|]. intros q Hq. apply E2. congruence.
Qed.

Lemma output_file_holds_result_witness :
  readFile (Some "o.txt")
    (written (oneFile "f.txt" (text ["x"; "x"])) "o.txt" (text ["x"]))
  = ([], Resolved (text ["x"]),
     written (oneFile "f.txt" (text ["x"; "x"])) "o.txt" (text ["x"]))
  /\ forall q, Some q <> Some "o.txt" ->
       fileAt (written (oneFile "f.txt" (text ["x"; "x"])) "o.txt" (text ["x"])) (Some q)
       = fileAt (oneFile "f.txt" (text ["x"; "x"])) (Some q).
Proof.
  apply (output_file_holds_result
           {| filePath := Some "f.txt"; content := None; outputPath := Some "o.txt";
              count := false; repeated := false; unique := false;
              ignoreCase := false |}
           (oneFile "f.txt" (text ["x"; "x"]))
           (written (oneFile "f.txt" (text ["x"; "x"])) "o.txt" (text ["x"]))
           [] {| out := text ["x"] |}); reflexivity.
Defined.

Lemma fileAt_truthy (fs : FileSystem) (p : option string) :
  fileAt fs p <> None -> truthy p = true.
Proof.
  intros H. destruct (truthy p) eqn:E; [reflexivity|].
  destruct (H (truthy_fileAt fs p E)).
Qed.

(** X14: in every mode but the degraded one, a call with content that is
    not empty and the path of an existing file rejects for conflicting
    inputs, prints nothing and writes nothing. *)
Theorem existing_file_and_content_conflict (opts : zUniqOptions) (fs : FileSystem) :
  fileAt fs (filePath opts) <> None ->
  truthy (content opts) = true ->
  repeated opts && unique opts = false ->
  zuniq opts fs = ([], Rejected ConflictingInputs, fs).
Proof.
  intros Hf Hc Hm. unfold zuniq. rewrite Hm.
  destruct (repeated opts).
  - unfold processRepeatedLines. apply bind_rejected.
    rewrite getRawContent_eq, Hc. destruct (fileAt fs (filePath opts)); congruence.
  - rewrite (fileAt_truthy fs _ Hf), Hc. cbn [andb].
    apply bind_rejected.
    rewrite processFilePathAndContent_eq.
    destruct (fileAt fs (filePath opts)); congruence.
Qed.

Lemma existing_file_and_content_conflict_witness :
  zuniq {| filePath := Some "f.txt"; content := Some "z"; outputPath := Some "o.txt";
           count := true; repeated := true; unique := false; ignoreCase := true |}
        (oneFile "f.txt" "x")
  = ([], Rejected ConflictingInputs, oneFile "f.txt" "x").
Proof.
  apply existing_file_and_content_conflict; [discriminate | reflexivity | reflexivity].
Defined.

(** X15: in the default mode, content that is not empty is used when no
    file exists at the path.  The warning about the path is printed once
    if a path was given, and once more, path or none, if [count] is set;
    the counts are then those of the content. *)
Theorem content_used_without_file (opts : zUniqOptions) (fs : FileSystem) :
  repeated opts = false ->
  fileAt fs (filePath opts) = None ->
  truthy (content opts) = true ->
  outputPath opts = None ->
  zuniq opts fs
  = (((if truthy (filePath opts) then [contentUsedWarning (filePath opts)] else [])
      ++ (if count opts then [contentUsedWarning (filePath opts)] else []))%list,
     Resolved {| out :=
       if count opts
       then getOutputWithCount
              (processContent (str (content opts)) (ignoreCase opts))
              (buildLinesCount (str (content opts)) false) true
       else processContent (str (content opts)) (ignoreCase opts) |},
     fs).
Proof.
  intros Hr Hf Hc Ho. unfold zuniq, contentUsedWarning.
  rewrite Hr, Hc, Ho. cbn [andb truthy negb]. rewrite Bool.andb_true_r.
  destruct (truthy (filePath opts)); destruct (count opts);
    unfold bind, ret;
    rewrite ?processFilePathAndContent_eq, ?getRawContent_eq, ?Hf, ?Hc;
    cbn -[processContent getOutputWithCount buildLinesCount];
    rewrite ?getRawContent_eq, ?Hf, ?Hc; reflexivity.
Qed.

Lemma content_used_without_file_witness :
  zuniq {| filePath := Some "nope"; content := Some (text ["z"; "z"]);
           outputPath := None; count := true; repeated := false; unique := false;
           ignoreCase := false |} (oneFile "f.txt" "x")
  = (["Warning: Invalid file path 'nope'. Using provided content.";
      "Warning: Invalid file path 'nope'. Using provided content."],
     Resolved {| out := join ["2 z"; "1 "] |}, oneFile "f.txt" "x").
Proof.
  apply (content_used_without_file
           {| filePath := Some "nope"; content := Some (text ["z"; "z"]);
              outputPath := None; count := true; repeated := false; unique := false;
              ignoreCase := false |} (oneFile "f.txt" "x")); reflexivity.
Defined.


(** ** The count tables *)

Lemma ownGet_ownSet_same (o : LineCount) (k : string) (v : Obj.jsval) :
  Obj.ownGet (Obj.ownSet o k v) k = Some v.
Proof.
  induction o as [|[k' v'] t IH]; cbn.
  - rewrite String.eqb_refl. reflexivity.
  - destruct (k' =? k) eqn:E; cbn.
    + rewrite String.eqb_refl. reflexivity.
    + rewrite E. exact IH.
Qed.

Lemma ownGet_ownSet_other (o : LineCount) (k k' : string) (v : Obj.jsval) :
  k <> k' -> Obj.ownGet (Obj.ownSet o k v) k' = Obj.ownGet o k'.
Proof.
  intros Hne. induction o as [|[j u] t IH]; cbn.
  - destruct (k =? k') eqn:E; [apply String.eqb_eq in E; contradiction | reflexivity].
  - destruct (j =? k) eqn:E; cbn.
    + apply String.eqb_eq in E. subst j.
      destruct (k =? k') eqn:E'; [apply String.eqb_eq in E'; contradiction | reflexivity].
    + destruct (j =? k'); [reflexivity | exact IH].
Qed.

Lemma count_step_same (o : LineCount) (line : string) (n : nat) :
  Obj.inherited line = false ->
  Obj.ownGet o line = countCell n ->
  Obj.ownGet (Obj.set o line (Obj.plusOne (Obj.orZero (Obj.get o line)))) line
  = countCell (S n).
Proof.
  unfold Obj.inherited. intros Hi Ho. apply Bool.orb_false_iff in Hi.
  destruct Hi as [Hp Hb]. unfold Obj.set, Obj.get. rewrite Hp, Hb, Ho.
  rewrite ownGet_ownSet_same. destruct n as [|n]; cbn; [reflexivity|].
  rewrite Nat.add_1_r. reflexivity.
Qed.

Lemma count_step_other (o : LineCount) (x line : string) (v : Obj.jsval) :
  x <> line -> Obj.ownGet (Obj.set o x v) line = Obj.ownGet o line.
Proof.
  intros Hne. unfold Obj.set. destruct (x =? "__proto__"); [reflexivity|].
  apply ownGet_ownSet_other, Hne.
Qed.

Lemma count_fold (line : string) (l : list string) (o : LineCount) (n : nat) :
  Obj.inherited line = false ->
  Obj.ownGet o line = countCell n ->
  Obj.ownGet
    (fold_left
       (fun (linesCount : LineCount) x =>
          Obj.set linesCount x (Obj.plusOne (Obj.orZero (Obj.get linesCount x))))
       l o) line
  = countCell (n + occurrences line l).
Proof.
  intros Hi. revert o n. induction l as [|x t IH]; intros o n Ho.
  - cbn. rewrite Nat.add_0_r. exact Ho.
  - cbn [fold_left]. unfold occurrences. cbn [count_occ].
    destruct (string_dec x line) as [E|E].
    + subst x. rewrite Nat.add_succ_r. apply (IH _ (S n)).
      apply count_step_same; assumption.
    + apply IH. rewrite count_step_other by exact E. exact Ho.
Qed.

Lemma case_sensitive_cell (rawContent line : string) :
  Obj.inherited line = false ->
  Obj.ownGet (buildCaseSensitiveLineCount rawContent) line
  = countCell (occurrences line (split rawContent)).
Proof.
  intros Hi. unfold buildCaseSensitiveLineCount.
  apply (count_fold line (split rawContent) [] 0 Hi). reflexivity.
Qed.

Lemma case_sensitive_get (rawContent line : string) :
  Obj.inherited line = false ->
  Obj.get (buildCaseSensitiveLineCount rawContent) line
  = match occurrences line (split rawContent) with
    | O => Obj.JUndef
    | S n => Obj.JNum (S n)
    end.
Proof.
  intros Hi. unfold Obj.get. rewrite (case_sensitive_cell _ _ Hi).
  unfold Obj.inherited in Hi. apply Bool.orb_false_iff in Hi. destruct Hi as [Hp Hb].
  destruct (occurrences line (split rawContent)); cbn [countCell]; [|reflexivity].
  rewrite Hp, Hb. reflexivity.
Qed.

(** X16: in the case-sensitive table, a line that is not the name of a
    property every object inherits is counted as often as it occurs among
    the lines of the text, and reads as [undefined] if it does not occur;
    the names of the inherited properties are the only lines miscounted. *)
Theorem case_sensitive_table_counts (rawContent line : string) :
  Obj.inherited line = false ->
  Obj.get (buildLinesCount rawContent false) line
  = (if (occurrences line (split rawContent) =? 0)%nat then Obj.JUndef
     else Obj.JNum (occurrences line (split rawContent))).
Proof.
  intros Hi. unfold buildLinesCount. rewrite (case_sensitive_get _ _ Hi).
  destruct (occurrences line (split rawContent)); reflexivity.
Qed.

Lemma case_sensitive_table_counts_witness :
  Obj.get (buildLinesCount (text ["b"; "a"; "b"; "B"; "b"]) false) "b" = Obj.JNum 3.
Proof.
  apply (case_sensitive_table_counts (text ["b"; "a"; "b"; "B"; "b"]) "b"). reflexivity.
Defined.

Lemma repeated_filter (rawContent : string) :
  Forall (fun l => Obj.inherited l = false) (split rawContent) ->
  filter (fun line => Obj.gt1 (Obj.get (buildLinesCount rawContent false) line))
         (split rawContent)
  = filter (fun l => (1 <? occurrences l (split rawContent))%nat) (split rawContent).
Proof.
  intros H. apply filter_ext_in. intros line Hin.
  rewrite Forall_forall in H. unfold buildLinesCount.
  rewrite (case_sensitive_get _ _ (H line Hin)).
  destruct (occurrences line (split rawContent)); reflexivity.
Qed.

(** X17: in the repeated mode alone, when no line of the resolved input is
    the name of a property every object inherits, the output is the lines
    that occur more than once, each once, in the order of their first
    occurrence, joined by line feeds; warnings and rejections are those
    of the resolution of the input. *)
Theorem repeated_mode_lists_repeated_lines (p c : option string) (fs fs' : FileSystem)
    (w : list string) (rawContent : string) :
  getRawContent p c fs = (w, Resolved rawContent, fs') ->
  Forall (fun l => Obj.inherited l = false) (split rawContent) ->
  zuniq (repeatedOnly p c) fs
  = (w, Resolved {| out := join (repeatedOnce (split rawContent)) |}, fs').
Proof.
  intros Hraw Hl. unfold zuniq, repeatedOnly. cbn [repeated unique andb filePath
    content count ignoreCase]. unfold processRepeatedLines.
  rewrite (bind_resolved _ _ _ _ _ _ Hraw). cbv zeta. unfold ret.
  rewrite app_nil_r, (repeated_filter _ Hl). reflexivity.
Qed.

Lemma repeated_mode_lists_repeated_lines_witness :
  zuniq (repeatedOnly None (Some (text ["a"; "a"; "b"; "b"; "b"; "c"]))) (oneFile "f.txt" "x")
  = (["Warning: Invalid file path 'undefined'. Using provided content."],
     Resolved {| out := join ["a"; "b"] |}, oneFile "f.txt" "x").
Proof.
  apply (repeated_mode_lists_repeated_lines None
           (Some (text ["a"; "a"; "b"; "b"; "b"; "c"]))
           (oneFile "f.txt" "x") (oneFile "f.txt" "x")
           ["Warning: Invalid file path 'undefined'. Using provided content."]
           (text ["a"; "a"; "b"; "b"; "b"; "c"])).
  - reflexivity.
  - repeat constructor.
Defined.

(** ** Keys found up to letter case *)

Lemma findLineKey_fold_none (line : string) (ks : list string) (acc : string) :
  (forall k, In k ks -> toLowerCase k <> toLowerCase line) ->
  fold_left
    (fun lineKey key => if toLowerCase key =? toLowerCase line then key else lineKey)
    ks acc = acc.
Proof.
  revert acc. induction ks as [|k t IH]; intros acc H; [reflexivity|].
  cbn [fold_left]. destruct (toLowerCase k =? toLowerCase line) eqn:E.
  - apply String.eqb_eq in E. destruct (H k (or_introl eq_refl) E).
  - apply IH. intros k' Hk'. apply H. right. exact Hk'.
Qed.

Lemma findLineKey_last (t : LineCount) (line key : string)
    (before after : list string) :
  Obj.keys t = (before ++ key :: after)%list ->
  toLowerCase key = toLowerCase line ->
  (forall k, In k after -> toLowerCase k <> toLowerCase line) ->
  findLineKey t line = key.
Proof.
  intros Hk He Ha. unfold findLineKey. rewrite Hk, fold_left_app.
  cbn [fold_left]. rewrite He, String.eqb_refl.
  apply findLineKey_fold_none, Ha.
Qed.

(** X18: [findLineKey] returns the last of the table's keys, in the order
    of [Object.keys], that equals the line up to letter case, and the
    empty string when no key does. *)
Theorem findLineKey_returns_last_match (t : LineCount) (line : string) :
  ((forall k, In k (Obj.keys t) -> toLowerCase k <> toLowerCase line) ->
   findLineKey t line = "")
  /\ (forall (key : string) (before after : list string),
        Obj.keys t = (before ++ key :: after)%list ->
        toLowerCase key = toLowerCase line ->
        (forall k, In k after -> toLowerCase k <> toLowerCase line) ->
        findLineKey t line = key).
Proof.
  split.
  - intros H. apply findLineKey_fold_none, H.
  - intros key before after. apply findLineKey_last.
Qed.

Lemma findLineKey_returns_last_match_witness :
  findLineKey [("a", Obj.JNum 1); ("A", Obj.JNum 2); ("b", Obj.JNum 1)] "a" = "A"
  /\ findLineKey [("a", Obj.JNum 1); ("A", Obj.JNum 2); ("b", Obj.JNum 1)] "c" = "".
Proof.
  split.
  - apply (proj2 (findLineKey_returns_last_match
                    [("a", Obj.JNum 1); ("A", Obj.JNum 2); ("b", Obj.JNum 1)] "a")
             "A" ["a"] ["b"]); [reflexivity | reflexivity |].
    intros k [Hk|[]]. subst k. discriminate.
  - apply (proj1 (findLineKey_returns_last_match
                    [("a", Obj.JNum 1); ("A", Obj.JNum 2); ("b", Obj.JNum 1)] "c")).
    intros k [Hk|[Hk|[Hk|[]]]]; subst k; discriminate.
Defined.

(** ** The case-insensitive table *)

Lemma lowerChar_idempotent (c : ascii) : lowerChar (lowerChar c) = lowerChar c.
Proof.
  destruct c as [b0 b1 b2 b3 b4 b5 b6 b7].
  destruct b0, b1, b2, b3, b4, b5, b6, b7; reflexivity.
Qed.

Lemma toLowerCase_idempotent (s : string) : toLowerCase (toLowerCase s) = toLowerCase s.
Proof.
  induction s as [|c t IH]; [reflexivity|].
  cbn. rewrite lowerChar_idempotent, IH. reflexivity.
Qed.

Lemma In_insertIndex (n : N) (k : string) (l : list (N * string)) (x : N * string) :
  In x (Obj.insertIndex n k l) <-> x = (n, k) \/ In x l.
Proof.
  induction l as [|[m j] t IH]; cbn.
  - intuition.
  - destruct (n <=? m)%N; cbn; [intuition|]. rewrite IH. intuition.
Qed.

Lemma In_indexKeys (o : LineCount) (k : string) :
  In k (map snd (Obj.indexKeys o)) <-> In k (map fst o) /\ Obj.arrayIndex k <> None.
Proof.
  induction o as [|[j v] t IH]; cbn.
  - intuition.
  - destruct (Obj.arrayIndex j) as [n|] eqn:E.
    + rewrite in_map_iff. split.
      * intros [[m x] [Hx Hin]]. cbn in Hx. subst x.
        apply In_insertIndex in Hin. destruct Hin as [Hin|Hin].
        -- injection Hin as _ Hk. subst k. split; [left; reflexivity | congruence].
        -- assert (H : In k (map snd (Obj.indexKeys t)))
             by (apply in_map_iff; exists (m, k); auto).
           apply IH in H. intuition.
      * intros [[Hk|Hk] Hidx].
        -- subst j. exists (n, k). split; [reflexivity|].
           apply In_insertIndex. left. reflexivity.
        -- assert (H : In k (map snd (Obj.indexKeys t))) by (apply IH; auto).
           apply in_map_iff in H. destruct H as [[m x] [Hx Hin]]. cbn in Hx. subst x.
           exists (m, k). split; [reflexivity|]. apply In_insertIndex. right. exact Hin.
    + rewrite IH. split; [intuition|]. intros [[Hk|Hk] Hidx]; [|intuition].
      subst j. congruence.
Qed.

Lemma In_nameKeys (o : LineCount) (k : string) :
  In k (Obj.nameKeys o) <-> In k (map fst o) /\ Obj.arrayIndex k = None.
Proof.
  induction o as [|[j v] t IH]; cbn.
  - intuition.
  - destruct (Obj.arrayIndex j) as [n|] eqn:E.
    + rewrite IH. split; [intuition|]. intros [[Hk|Hk] Hidx]; [|intuition].
      subst j. congruence.
    + cbn. rewrite IH. split.
      * intros [Hk|[H1 H2]]; [subst j; auto | auto].
      * intros [[Hk|Hk] Hidx]; auto.
Qed.

Lemma In_keys (o : LineCount) (k : string) :
  In k (Obj.keys o) <-> In k (map fst o).
Proof.
  unfold Obj.keys. rewrite in_app_iff, In_indexKeys, In_nameKeys.
  destruct (Obj.arrayIndex k); split; intros H;
    try (destruct H as [[H _]|[H _]]; exact H).
  - left. split; [exact H | discriminate].
  - right. split; [exact H | reflexivity].
Qed.

Lemma findLineKey_fold_one (line k0 : string) (ks : list string) (acc : string) :
  (forall k, In k ks -> toLowerCase k = toLowerCase line -> k = k0) ->
  fold_left
    (fun lineKey key => if toLowerCase key =? toLowerCase line then key else lineKey)
    ks acc
  = if existsb (fun k => toLowerCase k =? toLowerCase line) ks then k0 else acc.
Proof.
  revert acc. induction ks as [|k t IH]; intros acc H; [reflexivity|].
  cbn [fold_left existsb].
  assert (Ht : forall k', In k' t -> toLowerCase k' = toLowerCase line -> k' = k0)
    by (intros k' Hk'; apply H; right; exact Hk').
  rewrite (IH _ Ht).
  destruct (toLowerCase k =? toLowerCase line) eqn:E; cbn [orb]; [|reflexivity].
  apply String.eqb_eq in E. rewrite (H k (or_introl eq_refl) E).
  destruct (existsb _ t); reflexivity.
Qed.

Lemma findLineKey_none (t : LineCount) (line : string) :
  (forall k, In k (map fst t) -> sameLine true k line = false) ->
  findLineKey t line = "".
Proof.
  intros H. apply findLineKey_fold_none. intros k Hk E.
  apply In_keys in Hk. specialize (H k Hk). unfold sameLine in H.
  rewrite E, String.eqb_refl in H. discriminate.
Qed.

Lemma findLineKey_one (t : LineCount) (line k0 : string) :
  In k0 (map fst t) -> sameLine true k0 line = true ->
  (forall k, In k (map fst t) -> sameLine true k line = true -> k = k0) ->
  findLineKey t line = k0.
Proof.
  intros Hin Hs H. unfold findLineKey.
  rewrite (findLineKey_fold_one line k0).
  - assert (E : existsb (fun k => toLowerCase k =? toLowerCase line) (Obj.keys t) = true).
    { apply existsb_exists. exists k0. split; [apply In_keys, Hin | exact Hs]. }
    rewrite E. reflexivity.
  - intros k Hk E. apply H; [apply In_keys, Hk|].
    unfold sameLine. rewrite E. apply String.eqb_refl.
Qed.

Lemma findLineKey_matches (t : LineCount) (line : string) :
  findLineKey t line = ""
  \/ (In (findLineKey t line) (map fst t)
      /\ sameLine true (findLineKey t line) line = true).
Proof.
  unfold findLineKey.
  assert (G : forall ks acc,
            (forall k, In k ks -> In k (map fst t)) ->
            acc = "" \/ (In acc (map fst t) /\ sameLine true acc line = true) ->
            let r := fold_left
                       (fun lineKey key =>
                          if toLowerCase key =? toLowerCase line then key else lineKey)
                       ks acc in
            r = "" \/ (In r (map fst t) /\ sameLine true r line = true)).
  { induction ks as [|k ks IH]; intros acc Hks Hacc; [exact Hacc|].
    cbn [fold_left]. apply IH; [intros k' Hk'; apply Hks; right; exact Hk'|].
    destruct (toLowerCase k =? toLowerCase line) eqn:E; [|exact Hacc].
    right. split; [apply Hks; left; reflexivity | exact E]. }
  apply G; [intros k Hk; apply In_keys, Hk | left; reflexivity].
Qed.

Lemma In_ownSet (o : LineCount) (j k : string) (v : Obj.jsval) :
  In k (map fst (Obj.ownSet o j v)) <-> k = j \/ In k (map fst o).
Proof.
  induction o as [|[i u] t IH]; cbn.
  - intuition.
  - destruct (i =? j) eqn:E; cbn.
    + apply String.eqb_eq in E. subst i. intuition.
    + rewrite IH. intuition.
Qed.

Lemma In_set (o : LineCount) (j k : string) (v : Obj.jsval) :
  In k (map fst (Obj.set o j v)) -> k = j \/ In k (map fst o).
Proof.
  unfold Obj.set. destruct (j =? "__proto__"); [auto|]. apply In_ownSet.
Qed.

Lemma ownGet_In (o : LineCount) (k : string) (v : Obj.jsval) :
  Obj.ownGet o k = Some v -> In k (map fst o).
Proof.
  induction o as [|[i u] t IH]; cbn; [discriminate|].
  destruct (i =? k) eqn:E; [apply String.eqb_eq in E; auto | auto].
Qed.

Lemma findLineKey_same (t : LineCount) (x line : string) :
  toLowerCase x = toLowerCase line -> findLineKey t x = findLineKey t line.
Proof. intros E. unfold findLineKey. rewrite E. reflexivity. Qed.

Lemma findLineKey_lower (t : LineCount) (x : string) :
  findLineKey t (toLowerCase x) = findLineKey t x.
Proof. apply findLineKey_same, toLowerCase_idempotent. Qed.

Lemma tracks_set_other (line j : string) (v : Obj.jsval) (t : LineCount)
    (first : option string) (n : nat) :
  sameLine true j line = false ->
  tracks line t first n -> tracks line (Obj.set t j v) first n.
Proof.
  intros Hj. destruct first as [k0|]; cbn [tracks].
  - intros (Hn & Hs & Hg & Hk). repeat split; try assumption.
    + rewrite count_step_other; [exact Hg|]. intros E. subst j. congruence.
    + intros k Hin Hm. apply In_set in Hin. destruct Hin as [E|Hin].
      * subst k. congruence.
      * apply Hk; assumption.
  - intros (Hn & Hk). split; [exact Hn|].
    intros k Hin. apply In_set in Hin. destruct Hin as [E|Hin].
    + subst k. exact Hj.
    + apply Hk, Hin.
Qed.

Lemma matching_key_is_proper (line k : string) :
  toLowerCase line <> "" -> toLowerCase line <> "__proto__" ->
  sameLine true k line = true ->
  (k =? "") = false /\ (k =? "__proto__") = false.
Proof.
  intros H1 H2 Hs. apply sameLine_spec in Hs. cbv iota in Hs. split.
  - destruct (k =? "") eqn:E; [|reflexivity].
    apply String.eqb_eq in E. subst k. destruct H1. symmetry. exact Hs.
  - destruct (k =? "__proto__") eqn:E; [|reflexivity].
    apply String.eqb_eq in E. subst k. destruct H2. symmetry. exact Hs.
Qed.

Lemma tracks_step (line x : string) (t : LineCount) (first : option string) (n : nat) :
  toLowerCase line <> "" -> toLowerCase line <> "__proto__" ->
  tracks line t first n ->
  tracks line
    (let lowerCaseLine := toLowerCase x in
     let lineKey := findLineKey t lowerCaseLine in
     if truthy (Some lineKey) then
       Obj.set t lineKey (Obj.plusOne (Obj.get t lineKey))
     else Obj.set t x (Obj.JNum 1))
    (if sameLine true x line
     then Some match first with Some k0 => k0 | None => x end
     else first)
    (if sameLine true x line then S n else n).
Proof.
  intros H1 H2 Ht. cbv zeta. rewrite findLineKey_lower.
  destruct (sameLine true x line) eqn:Hx.
  - assert (Ex := Hx). apply sameLine_spec in Ex. cbn in Ex.
    rewrite (findLineKey_same t x line Ex).
    destruct first as [k0|]; cbn [tracks] in Ht.
    + destruct Ht as (Hn & Hs & Hg & Hk).
      rewrite (findLineKey_one t line k0 (ownGet_In _ _ _ Hg) Hs Hk).
      destruct (matching_key_is_proper line k0 H1 H2 Hs) as [E1 E2].
      cbn [truthy]. rewrite E1. cbn [negb].
      unfold Obj.set, Obj.get. rewrite E2, Hg. cbn [Obj.plusOne]. rewrite Nat.add_1_r.
      cbn [tracks]. repeat split.
      * apply Nat.lt_0_succ.
      * exact Hs.
      * apply ownGet_ownSet_same.
      * intros k Hin Hm. apply In_ownSet in Hin. destruct Hin as [E|Hin]; [exact E|].
        apply Hk; assumption.
    + destruct Ht as (Hn & Hk). subst n.
      rewrite (findLineKey_none t line Hk). cbn [truthy String.eqb negb].
      destruct (matching_key_is_proper line x H1 H2 Hx) as [E1 E2].
      unfold Obj.set. rewrite E2. cbn [tracks]. repeat split.
      * apply Nat.lt_0_succ.
      * exact Hx.
      * apply ownGet_ownSet_same.
      * intros k Hin Hm. apply In_ownSet in Hin. destruct Hin as [E|Hin]; [exact E|].
        rewrite (Hk k Hin) in Hm. discriminate.
  - destruct (findLineKey_matches t x) as [E|[Hin Hm]].
    + rewrite E. cbn [truthy String.eqb negb]. apply tracks_set_other; assumption.
    + destruct (truthy (Some (findLineKey t x))).
      * apply tracks_set_other; [|exact Ht].
        rewrite (sameLine_left true _ x line Hm). exact Hx.
      * apply tracks_set_other; assumption.
Qed.

Lemma tracks_fold (line : string) (l : list string) (t : LineCount)
    (first : option string) (n : nat) :
  toLowerCase line <> "" -> toLowerCase line <> "__proto__" ->
  tracks line t first n ->
  tracks line
    (fold_left
       (fun (caseInsensitiveLinesCount : LineCount) x =>
          let lowerCaseLine := toLowerCase x in
          let lineKey := findLineKey caseInsensitiveLinesCount lowerCaseLine in
          if truthy (Some lineKey) then
            Obj.set caseInsensitiveLinesCount lineKey
              (Obj.plusOne (Obj.get caseInsensitiveLinesCount lineKey))
          else
            Obj.set caseInsensitiveLinesCount x (Obj.JNum 1))
       l t)
    match first with Some k0 => Some k0 | None => firstUpToCase line l end
    (n + occurrencesUpToCase line l).
Proof.
  intros H1 H2. revert t first n. induction l as [|x r IH]; intros t first n Ht.
  - cbn. rewrite Nat.add_0_r. destruct first; exact Ht.
  - cbn [fold_left]. pose proof (tracks_step line x t first n H1 H2 Ht) as Hs.
    apply IH in Hs. unfold occurrencesUpToCase, firstUpToCase in *.
    cbn [filter find]. destruct (sameLine true x line).
    + cbn [List.length]. rewrite Nat.add_succ_r. destruct first; exact Hs.
    + destruct first; exact Hs.
Qed.

Lemma tracks_table (rawContent line : string) :
  toLowerCase line <> "" -> toLowerCase line <> "__proto__" ->
  tracks line (buildCaseInsensitiveLinesCount rawContent)
    (firstUpToCase line (split rawContent))
    (occurrencesUpToCase line (split rawContent)).
Proof.
  intros H1 H2.
  assert (H0 : tracks line [] None 0) by (split; [reflexivity | intros k []]).
  exact (tracks_fold line (split rawContent) [] None 0 H1 H2 H0).
Qed.

(** X19: in the case-insensitive table, the lines equal up to letter case
    to a line that is neither empty nor [__proto__] are counted together,
    under the spelling of the first of them, which is the key
    [findLineKey] finds for each of them; without such a line no key is
    found. *)
Theorem case_insensitive_table_counts (rawContent line : string) :
  toLowerCase line <> "" -> toLowerCase line <> "__proto__" ->
  match firstUpToCase line (split rawContent) with
  | Some first =>
      findLineKey (buildLinesCount rawContent true) line = first
      /\ Obj.get (buildLinesCount rawContent true) first
         = Obj.JNum (occurrencesUpToCase line (split rawContent))
      /\ 0 < occurrencesUpToCase line (split rawContent)
  | None =>
      findLineKey (buildLinesCount rawContent true) line = ""
      /\ occurrencesUpToCase line (split rawContent) = 0
  end.
Proof.
  intros H1 H2.
  change (buildLinesCount rawContent true)
    with (buildCaseInsensitiveLinesCount rawContent).
  pose proof (tracks_table rawContent line H1 H2) as H.
  destruct (firstUpToCase line (split rawContent)) as [k0|]; cbn [tracks] in H.
  - destruct H as (Hn & Hs & Hg & Hk). repeat split.
    + apply findLineKey_one; [exact (ownGet_In _ _ _ Hg) | exact Hs | exact Hk].
    + unfold Obj.get. rewrite Hg. reflexivity.
    + exact Hn.
  - destruct H as (Hn & Hk). split; [|exact Hn].
    apply findLineKey_none, Hk.
Qed.

Lemma case_insensitive_table_counts_witness :
  findLineKey (buildLinesCount (text ["Ab"; "x"; "aB"; "constructor"; "AB"]) true) "ab"
  = "Ab"
  /\ Obj.get (buildLinesCount (text ["Ab"; "x"; "aB"; "constructor"; "AB"]) true) "Ab"
     = Obj.JNum 3
  /\ 0 < 3.
Proof.
  apply (case_insensitive_table_counts
           (text ["Ab"; "x"; "aB"; "constructor"; "AB"]) "ab"); discriminate.
Defined.

Lemma case_sensitive_keys (l : list string) (o : LineCount) (k : string) :
  In k (map fst
          (fold_left
             (fun (linesCount : LineCount) x =>
                Obj.set linesCount x (Obj.plusOne (Obj.orZero (Obj.get linesCount x))))
             l o)) ->
  In k (map fst o) \/ In k l.
Proof.
  revert o. induction l as [|x t IH]; intros o H; [left; exact H|].
  cbn [fold_left] in H. apply IH in H. destruct H as [H|H].
  - apply In_set in H. destruct H as [H|H]; [right; left; symmetry; exact H | left; exact H].
  - right. right. exact H.
Qed.

(** X20: with [count] set, a line of the raw text is printed with the
    number of its occurrences in the raw text in front when no other line
    of the raw text equals it up to letter case and it is not the name of
    a property every object inherits. *)
Theorem count_is_right_without_case_variants (rawContent line : string) :
  In line (split rawContent) ->
  Obj.inherited line = false ->
  (forall other, In other (split rawContent) ->
                 sameLine true other line = true -> other = line) ->
  getOutputWithCount line (buildLinesCount rawContent false) true
  = showNat (occurrences line (split rawContent)) ++ " " ++ line.
Proof.
  intros Hin Hi Hu.
  assert (Hocc : 0 < occurrences line (split rawContent)).
  { unfold occurrences. apply count_occ_In, Hin. }
  pose proof (case_sensitive_cell rawContent line Hi) as Hc.
  destruct (occurrences line (split rawContent)) as [|n] eqn:En; [inversion Hocc|].
  cbn [countCell] in Hc.
  assert (Hk : findLineKey (buildLinesCount rawContent false) line = line).
  { apply findLineKey_one.
    - exact (ownGet_In _ _ _ Hc).
    - apply sameLine_refl.
    - intros k Hkin Hs. apply Hu; [|exact Hs].
      apply case_sensitive_keys in Hkin. destruct Hkin as [[]|Hkin]. exact Hkin. }
  unfold getOutputWithCount.
  assert (Hl : hasLF line = false).
  { pose proof (split_lines_no_LF rawContent) as HF. rewrite Forall_forall in HF.
    apply HF, Hin. }
  rewrite (split_no_LF line Hl). cbn [map join]. rewrite Hk.
  unfold Obj.get. change (buildLinesCount rawContent false)
    with (buildCaseSensitiveLineCount rawContent). rewrite Hc. reflexivity.
Qed.

Lemma count_is_right_without_case_variants_witness :
  getOutputWithCount "b" (buildLinesCount (text ["b"; "a"; "b"; "A"]) false) true
  = showNat (occurrences "b" (split (text ["b"; "a"; "b"; "A"]))) ++ " " ++ "b".
Proof.
  apply count_is_right_without_case_variants.
  - left. reflexivity.
  - reflexivity.
  - intros other [H|[H|[H|[H|[H|[]]]]]] Hs; subst other;
      first [reflexivity | discriminate Hs].
Defined.

(** ** The older entry point *)

Lemma legacy_processContent (content : string) :
  Legacy.processContent content = processContent content false.
Proof. reflexivity. Qed.

(** X21: without [count], the current entry point does what the older
    entry point does, when it is given the options of the older one with
    the output path moved from the field [outputFilePath], which the
    older one reads, to the field [outputPath], which the current one
    reads, and [ignoreCase] not set: the same warnings, the same settled
    value and the same file system, for all such options and all file
    systems. *)
Theorem current_agrees_with_legacy (o : Legacy.options) (fs : FileSystem) :
  Legacy.count o = false ->
  zuniq (ofLegacy o) fs = Legacy.zuniq o fs.
Proof.
  intros Hc. unfold zuniq, Legacy.zuniq, ofLegacy.
  cbn [repeated unique filePath content count ignoreCase outputPath].
  rewrite Hc.
  unfold processRepeatedLines, Legacy.processRepeatedLines.
  unfold processFilePathAndContent, Legacy.processFilePathAndContent.
  reflexivity.
Qed.

Lemma current_agrees_with_legacy_witness :
  zuniq (ofLegacy {| Legacy.filePath := Some "f.txt"; Legacy.content := None;
                     Legacy.outputFilePath := Some "o.txt"; Legacy.count := false;
                     Legacy.repeated := false; Legacy.unique := false |})
        (oneFile "f.txt" (text ["a"; "a"; "A"]))
  = Legacy.zuniq {| Legacy.filePath := Some "f.txt"; Legacy.content := None;
                    Legacy.outputFilePath := Some "o.txt"; Legacy.count := false;
                    Legacy.repeated := false; Legacy.unique := false |}
        (oneFile "f.txt" (text ["a"; "a"; "A"])).
Proof. apply current_agrees_with_legacy. reflexivity. Defined.

(** X22: the older entry point prints in front of every line its number
    of occurrences in the raw text, when the lines to print are lines of
    the raw text and none is the name of a property every object
    inherits; lines equal up to letter case do not matter to it. *)
Theorem legacy_count_is_right (rawContent output : string) :
  Forall (fun line => In line (split rawContent) /\ Obj.inherited line = false)
         (split output) ->
  Legacy.getOutputWithCount output (Legacy.buildLinesCount rawContent)
  = join (map (fun line => showNat (occurrences line (split rawContent)) ++ " " ++ line)
              (split output)).
Proof.
  intros H. unfold Legacy.getOutputWithCount. cbv zeta. f_equal.
  apply map_ext_in. intros line Hin. rewrite Forall_forall in H.
  destruct (H line Hin) as [Hr Hi].
  change (Legacy.buildLinesCount rawContent)
    with (buildCaseSensitiveLineCount rawContent).
  rewrite (case_sensitive_get _ _ Hi).
  assert (Hocc : 0 < occurrences line (split rawContent)).
  { unfold occurrences. apply count_occ_In, Hr. }
  destruct (occurrences line (split rawContent)); [inversion Hocc | reflexivity].
Qed.

Lemma legacy_count_is_right_witness :
  Legacy.getOutputWithCount (join ["a"; "A"])
    (Legacy.buildLinesCount (text ["a"; "A"; "A"]))
  = join ["1 a"; "2 A"].
Proof.
  apply (legacy_count_is_right (text ["a"; "A"; "A"]) (join ["a"; "A"])).
  change (split (join ["a"; "A"])) with ["a"; "A"].
  change (split (text ["a"; "A"; "A"])) with ["a"; "A"; "A"; ""].
  constructor; [split; [left; reflexivity | reflexivity]|].
  constructor; [split; [right; left; reflexivity | reflexivity]|].
  constructor.
Defined.

(** ** Blank lines in the output *)

Lemma collapseLF_no_LF (x : string) : hasLF x = false -> collapseLF x = x.
Proof. intros H. apply collapseLF_fixed, hasDoubleLF_no_LF, H. Qed.

Lemma collapseLF_app_no_LF (x r : string) :
  hasLF x = false -> collapseLF (x ++ String LF r) = x ++ collapseLF (String LF r).
Proof.
  induction x as [|c t IH]; [reflexivity|].
  cbn [hasLF]. intros H. apply Bool.orb_false_iff in H. destruct H as [Hc Ht].
  cbn [append]. rewrite collapseLF_cons_not_LF by exact Hc. rewrite (IH Ht).
  reflexivity.
Qed.

Lemma dropEmptyButLast_not_nil (l : list string) :
  l <> [] -> dropEmptyButLast l <> [].
Proof.
  induction l as [|y t IH]; [congruence|]. intros _.
  cbn [dropEmptyButLast]. destruct t as [|z t']; [discriminate|].
  destruct (y =? ""); [apply IH; discriminate | discriminate].
Qed.

Lemma dropEmptyButLast_Forall (P : string -> Prop) (l : list string) :
  Forall P l -> Forall P (dropEmptyButLast l).
Proof.
  induction l as [|y t IH]; intros H; [constructor|].
  inversion H as [|? ? Hy Ht]; subst. cbn [dropEmptyButLast].
  destruct t as [|z t']; [constructor; [exact Hy | constructor]|].
  destruct (y =? ""); [apply IH, Ht | constructor; [exact Hy | apply IH, Ht]].
Qed.

Lemma join_cons_not_nil (x : string) (l : list string) :
  l <> [] -> join (x :: l) = x ++ String LF (join l).
Proof. destruct l; [congruence | reflexivity]. Qed.

(** Collapsing the runs of line feeds takes out the empty lines between
    the first line and the last, and nothing else. *)
Lemma collapseLF_join (x : string) (l : list string) :
  Forall (fun y => hasLF y = false) (x :: l) ->
  collapseLF (join (x :: l)) = join (x :: dropEmptyButLast l).
Proof.
  revert x. induction l as [|y t IH]; intros x H.
  - inversion H; subst. cbn. apply collapseLF_no_LF. assumption.
  - inversion H as [|? ? Hx Hl]; subst. inversion Hl as [|? ? Hy Ht]; subst.
    rewrite join_cons_cons, collapseLF_app_no_LF by exact Hx.
    rewrite collapseLF_cons, (head_of_join_is_LF y t Hy).
    cbn [isLF]. replace (isLF LF) with true by reflexivity. cbn [andb].
    rewrite (IH y Hl).
    destruct t as [|z t'].
    + rewrite Bool.andb_false_r. reflexivity.
    + rewrite Bool.andb_true_r.
      assert (Hn : dropEmptyButLast (z :: t') <> [])
        by (apply dropEmptyButLast_not_nil; discriminate).
      cbn [dropEmptyButLast]. fold (dropEmptyButLast (z :: t')).
      destruct (y =? "") eqn:Ey.
      * apply String.eqb_eq in Ey. subst y.
        rewrite !join_cons_not_nil by exact Hn. reflexivity.
      * rewrite (join_cons_not_nil x) by discriminate. reflexivity.
Qed.

Lemma collapseLF_join_lines (l : list string) :
  Forall (fun y => hasLF y = false) l ->
  collapseLF (join l) = join (dropInnerEmpty l).
Proof. destruct l as [|x t]; [reflexivity|]. apply collapseLF_join. Qed.

(** C2: the filter of the lines keeps every blank line, which is a line
    that is empty once its carriage returns are taken out.  The collapse
    of the runs of line feeds then takes out of the kept lines every line
    of no character that lies strictly between the first and the last of
    them, and no other line; a blank line made of carriage returns stays.
    The output is that text with its end put right.  On an input without
    carriage returns that ends with a line feed, the lines of the output
    are exactly the kept lines without the inner empty ones. *)
Theorem blank_lines_kept_then_collapsed (content : string) (ignoreCase : bool) :
  filter isBlank (uniqueLines content ignoreCase) = blankLines content
  /\ processContent content ignoreCase
     = (let kept := join (dropInnerEmpty (uniqueLines content ignoreCase)) in
        if endsWithLF content then replaceTrailingNewlines kept else trimEnd kept)
  /\ (hasCR content = false -> endsWithLF content = true ->
      split (processContent content ignoreCase)
      = dropInnerEmpty (uniqueLines content ignoreCase)).
Proof.
  assert (E : processContent content ignoreCase
              = (let kept := join (dropInnerEmpty (uniqueLines content ignoreCase)) in
                 if endsWithLF content then replaceTrailingNewlines kept
                 else trimEnd kept)).
  { unfold processContent, updateTrailingNewlines.
    rewrite trailing_count_positive, collapseLF_join_lines by apply kept_no_LF.
    reflexivity. }
  split; [|split].
  - rewrite uniqueLines_scan. apply keepFrom_blank.
  - exact E.
  - intros HCR HL. rewrite E, HL. cbv zeta.
    assert (HF : Forall (fun y => hasLF y = false)
                   (dropInnerEmpty (uniqueLines content ignoreCase))).
    { pose proof (kept_no_LF content ignoreCase) as HK.
      destruct (uniqueLines content ignoreCase) as [|x t]; [constructor|].
      inversion HK; subst. constructor; [assumption|].
      apply dropEmptyButLast_Forall. assumption. }
    assert (HN : dropInnerEmpty (uniqueLines content ignoreCase) <> []).
    { pose proof (kept_not_nil content ignoreCase) as HK.
      destruct (uniqueLines content ignoreCase); [congruence | discriminate]. }
    rewrite replaceTrailingNewlines_fixed.
    + apply split_join; assumption.
    + rewrite <- collapseLF_join_lines by apply kept_no_LF.
      rewrite hasCR_collapseLF. apply hasCR_join, kept_no_CR, HCR.
    + rewrite <- collapseLF_join_lines by apply kept_no_LF.
      apply hasDoubleLF_collapseLF.
Qed.

Lemma blank_lines_kept_then_collapsed_witness :
  split (processContent (text ["a"; ""; ""; "b"; ""]) false)
  = dropInnerEmpty (uniqueLines (text ["a"; ""; ""; "b"; ""]) false).
Proof.
  apply (proj2 (proj2 (blank_lines_kept_then_collapsed
                         (text ["a"; ""; ""; "b"; ""]) false))); reflexivity.
Defined.
